(** * DriveThruFiction metadata source: a shallow embedding

    The development follows [src/DriveThruFiction/__init__.py].  The
    plugin class [DriveThruFictionSource] becomes a record of instance
    state threaded through a small state-and-exception monad; the two
    transports append to a trace of network events, so that statements
    about which round trips are issued are statements about that trace.

    Python values are modelled as the code meets them:
    - [str] is [string]; a character stands for the code point of the
      same number (0..255), and the character tables below are CPython's
      restricted to that range;
    - a parsed JSON document is the inductive [json];
    - a [dict] with string keys owned by the plugin is a [gmap];
    - exceptions are the inductive [exn].

    Calls of [log.info], [log.error] and [print] only emit diagnostic text
    and are left out. *)

From Stdlib Require Import Ascii Floats.SpecFloat.
From stdpp Require Import gmap strings list pretty.

Local Open Scope string_scope.
Local Open Scope list_scope.

(** ** Python strings *)

Module PyStr.

Definition code (c : ascii) : N := Ascii.N_of_ascii c.

Definition in_range (lo hi : N) (c : ascii) : bool :=
  ((lo <=? code c) && (code c <=? hi))%N.

(** [str.isspace], which is also what [str.split()] and the regular
    expression class [\s] use. *)
Definition is_space (c : ascii) : bool :=
  in_range 9 13 c || in_range 28 32 c
  || (code c =? 133)%N || (code c =? 160)%N.

(** [\d]: the decimal digits. *)
Definition is_digit (c : ascii) : bool := in_range 48 57 c.

Definition is_ascii_upper (c : ascii) : bool := in_range 65 90 c.

(** [\w]: alphanumeric characters and the underscore. *)
Definition is_word (c : ascii) : bool :=
  is_digit c || is_ascii_upper c || in_range 97 122 c || (code c =? 95)%N
  || (code c =? 170)%N || (code c =? 178)%N || (code c =? 179)%N
  || (code c =? 181)%N || (code c =? 185)%N || (code c =? 186)%N
  || in_range 188 190 c || in_range 192 214 c || in_range 216 246 c
  || in_range 248 255 c.

(** [str.lower] on one character. *)
Definition lower_char (c : ascii) : ascii :=
  if is_ascii_upper c || in_range 192 214 c || in_range 216 222 c
  then Ascii.ascii_of_N (code c + 32)
  else c.

Definition chars (s : string) : list ascii := String.list_ascii_of_string s.
Definition str (l : list ascii) : string := String.string_of_list_ascii l.

Definition lower (s : string) : string := str (map lower_char (chars s)).

Fixpoint starts_with (p s : list ascii) : bool :=
  match p, s with
  | [], _ => true
  | _ :: _, [] => false
  | a :: p', b :: s' => Ascii.eqb a b && starts_with p' s'
  end.

Fixpoint occurs (p s : list ascii) : bool :=
  starts_with p s ||
  match s with
  | [] => false
  | _ :: s' => occurs p s'
  end.

(** [needle in hay] for two strings. *)
Definition contains (needle hay : string) : bool :=
  occurs (chars needle) (chars hay).

(** [s.split()]: maximal runs of non-whitespace characters.  [cur] is
    the current word, reversed. *)
Definition flush (cur : list ascii) (ws : list (list ascii)) : list (list ascii) :=
  match cur with
  | [] => ws
  | _ :: _ => rev cur :: ws
  end.

Fixpoint split_go (cur : list ascii) (s : list ascii) : list (list ascii) :=
  match s with
  | [] => flush cur []
  | c :: s' =>
      if is_space c then flush cur (split_go [] s')
      else split_go (c :: cur) s'
  end.

Definition split_chars (s : list ascii) : list (list ascii) := split_go [] s.

Definition split (s : string) : list string := map str (split_chars (chars s)).

(** [sep.join(ws)] *)
Fixpoint join_chars (sep : list ascii) (ws : list (list ascii)) : list ascii :=
  match ws with
  | [] => []
  | [w] => w
  | w :: ws' => w ++ sep ++ join_chars sep ws'
  end.

Definition join (sep : string) (ws : list string) : string :=
  str (join_chars (chars sep) (map chars ws)).

Definition is_empty (s : string) : bool :=
  match s with
  | EmptyString => true
  | String _ _ => false
  end.

(** [s.strip()]: the whitespace at both ends goes. *)
Fixpoint lstrip_chars (s : list ascii) : list ascii :=
  match s with
  | [] => []
  | c :: s' => if is_space c then lstrip_chars s' else s
  end.

Definition strip_chars (s : list ascii) : list ascii :=
  rev (lstrip_chars (rev (lstrip_chars s))).

Definition strip (s : string) : string := str (strip_chars (chars s)).

End PyStr.

(** ** Regular expressions

    A backtracking matcher for the fragment of [re] the plugin uses:
    literals, character classes, [\b], concatenation, alternation and
    greedy or lazy repetition.  Alternatives are tried in the order [re]
    tries them, so the first success is the match [re] reports. *)

Module Re.
Import PyStr.

Inductive regex : Type :=
  | Eps
  | Lit (ignore_case : bool) (c : ascii)
  | Digit                                  (* \d *)
  | Space                                  (* \s *)
  | Dot                                    (* .  *)
  | OneOf (cs : list ascii)                (* [...] *)
  | Boundary                               (* \b *)
  | Seq (r1 r2 : regex)
  | Alt (r1 r2 : regex)
  | Star (greedy : bool) (r : regex).

Definition Opt (r : regex) : regex := Alt r Eps.
Definition Plus (r : regex) : regex := Seq r (Star true r).

Fixpoint Str (ignore_case : bool) (l : list ascii) : regex :=
  match l with
  | [] => Eps
  | [c] => Lit ignore_case c
  | c :: l' => Seq (Lit ignore_case c) (Str ignore_case l')
  end.

Definition Word (ignore_case : bool) (s : string) : regex :=
  Str ignore_case (chars s).

Definition lit_matches (ignore_case : bool) (p c : ascii) : bool :=
  if ignore_case then Ascii.eqb (lower_char p) (lower_char c)
  else Ascii.eqb p c.

Definition newline : ascii := Ascii.ascii_of_N 10.

Definition word_before (prev : option ascii) : bool :=
  match prev with
  | Some c => is_word c
  | None => false
  end.

Definition word_after (s : list ascii) : bool :=
  match s with
  | c :: _ => is_word c
  | [] => false
  end.

Definition orelse {A} (x y : option A) : option A :=
  match x with
  | Some _ => x
  | None => y
  end.

(** One character class step: consume [c] when [ok c]. *)
Definition step (ok : ascii -> bool) (s : list ascii)
    (k : option ascii -> list ascii -> option nat) : option nat :=
  match s with
  | c :: s' => if ok c then k (Some c) s' else None
  | [] => None
  end.

(** Repetition of [body], at most [n] more rounds: every round has to
    consume something, so [n] may be the length of the input. *)
Definition star_loop
    (body : option ascii -> list ascii ->
            (option ascii -> list ascii -> option nat) -> option nat)
    (greedy : bool) (k : option ascii -> list ascii -> option nat)
    : nat -> option ascii -> list ascii -> option nat :=
  fix loop (n : nat) (prev : option ascii) (s : list ascii) : option nat :=
    match n with
    | O => k prev s
    | S n' =>
        let again :=
          body prev s (fun p' s' =>
            if (length s' <? length s)%nat then loop n' p' s' else None) in
        if greedy then orelse again (k prev s)
        else orelse (k prev s) again
    end.

(** [rmatch r prev s k]: match [r] at the front of [s], the character
    before the position being [prev], then continue with [k]; the
    answer is what the first successful continuation returns. *)
Fixpoint rmatch (r : regex) (prev : option ascii) (s : list ascii)
    (k : option ascii -> list ascii -> option nat) {struct r} : option nat :=
  match r with
  | Eps => k prev s
  | Lit ic p => step (lit_matches ic p) s k
  | Digit => step is_digit s k
  | Space => step is_space s k
  | Dot => step (fun c => negb (Ascii.eqb c newline)) s k
  | OneOf cs => step (fun c => existsb (Ascii.eqb c) cs) s k
  | Boundary =>
      if xorb (word_before prev) (word_after s) then k prev s else None
  | Seq r1 r2 => rmatch r1 prev s (fun p' s' => rmatch r2 p' s' k)
  | Alt r1 r2 => orelse (rmatch r1 prev s k) (rmatch r2 prev s k)
  | Star greedy r' => star_loop (rmatch r') greedy k (length s) prev s
  end.

(** [pattern.match] at one position: the number of characters matched. *)
Definition match_at (r : regex) (prev : option ascii) (s : list ascii) : option nat :=
  rmatch r prev s (fun _ rest => Some (length s - length rest)%nat).

(** [re.sub(pattern, '', s)]: scan from the left, drop every match and
    resume after it.  Both patterns of the plugin match at least two
    characters, so the rule of [re.sub] for empty matches plays no
    part; an empty match is treated as no match. *)
Fixpoint sub_go (r : regex) (n : nat) (prev : option ascii) (s : list ascii) : list ascii :=
  match n, s with
  | S n', c :: s' =>
      match match_at r prev s with
      | Some (S m) => sub_go r n' (last (take (S m) s)) (drop (S m) s)
      | _ => c :: sub_go r n' (Some c) s'
      end
  | _, _ => s
  end.

Definition sub_chars (r : regex) (s : list ascii) : list ascii :=
  sub_go r (length s) None s.

Definition sub (r : regex) (s : string) : string := str (sub_chars r (chars s)).

End Re.

(** ** The query builder *)

Section QueryBuilder.
Import PyStr Re.

(** [(?i)\b(v|ver|vol)\.?\s*\d+(\.\d+)*\b], the part after the keyword
    apart. *)
Definition keyword_re : regex :=
  Alt (Word true "v") (Alt (Word true "ver") (Word true "vol")).

Definition version_tail_re : regex :=
  Seq (Opt (Lit true "."))
 (Seq (Star true Space)
 (Seq (Plus Digit)
 (Seq (Star true (Seq (Lit true ".") (Plus Digit)))
      Boundary))).

Definition version_re : regex :=
  Seq Boundary (Seq keyword_re version_tail_re).

(** [[\(\[].*?[\)\]]] *)
Definition bracket_re : regex :=
  Seq (OneOf ["("; "["]%char) (Seq (Star false Dot) (OneOf [")"; "]"]%char)).

(** Truth value of an optional string: [None] and [''] are false. *)
Definition str_truthy (t : option string) : bool :=
  match t with
  | Some s => negb (is_empty s)
  | None => false
  end.

Definition list_truthy {A} (l : option (list A)) : bool :=
  match l with
  | Some (_ :: _) => true
  | _ => false
  end.

Definition _create_query (title : option string) (authors : option (list string)) : string :=
  let tokens : list string := [] in
  let tokens :=
    match title with
    | Some t => if str_truthy title then tokens ++ [t] else tokens
    | None => tokens
    end in
  let tokens :=
    match authors with
    | Some (a :: _) => tokens ++ [a]
    | _ => tokens
    end in
  join " " tokens.

Definition _clean_title (title : option string) : string :=
  match title with
  | Some s =>
      if is_empty s then ""
      else
        let t := sub version_re s in
        let t := sub bracket_re t in
        join " " (split t)
  | None => ""
  end.

End QueryBuilder.

(** ** Parsed JSON

    What [json.loads] returns.  A [dict] keeps its items in insertion
    order; looking a key up finds its item. *)

#[local] Set Warnings "-register-all".

Inductive json : Type :=
  | JNull                                   (* None *)
  | JBool (b : bool)
  | JInt (n : Z)
  | JFloat (f : spec_float)
  | JStr (s : string)
  | JList (l : list json)
  | JDict (items : list (string * json)).

Module Py.
Import PyStr.

(** Truth value testing *)
Definition truthy (v : json) : bool :=
  match v with
  | JNull => false
  | JBool b => b
  | JInt n => negb (n =? 0)%Z
  | JFloat (S754_zero _) => false
  | JFloat _ => true
  | JStr s => negb (is_empty s)
  | JList [] => false
  | JList (_ :: _) => true
  | JDict [] => false
  | JDict (_ :: _) => true
  end.

(** [a or b] *)
Definition or_ (a b : json) : json := if truthy a then a else b.

Fixpoint assoc (key : string) (items : list (string * json)) : option json :=
  match items with
  | [] => None
  | (k, v) :: items' => if String.eqb k key then Some v else assoc key items'
  end.

(** [v == s] for a string literal [s] *)
Definition eq_str (v : json) (s : string) : bool :=
  match v with
  | JStr s' => String.eqb s' s
  | _ => false
  end.

Definition singleton_strs (s : string) : list json :=
  map (fun c => JStr (String c EmptyString)) (chars s).

End Py.

(** ** Exceptions *)

Inductive exn : Type :=
  | BrowserError (msg : string)   (* raised by [br.open_novisit]; [msg] is [str(e)] *)
  | CurlFailed (msg : string)     (* [Exception(f"Curl failed: {e}")] *)
  | JSONDecodeError
  | AttributeError
  | TypeError.

Definition exn_str (e : exn) : string :=
  match e with
  | BrowserError msg => msg
  | CurlFailed msg => "Curl failed: " +:+ msg
  | JSONDecodeError => "JSONDecodeError"
  | AttributeError => "AttributeError"
  | TypeError => "TypeError"
  end.

(** ** The network and the host

    One event per round trip that leaves the process. *)

Inductive event : Type :=
  | Open (url : string) (headers : list (string * string)) (timeout : Z)
  | Curl (cmd : list string).

(** A [datetime.datetime] with its offset from UTC in seconds. *)
Record datetime : Type := {
  year : Z; month : Z; day : Z;
  hour : Z; minute : Z; second : Z;
  utcoffset : option Z;
}.

(** What the plugin calls but does not define.  A transport answers with
    the body ([inl]) or with the text of the exception it raises ([inr]);
    the answer may depend on everything sent before. *)
Class Host : Type := {
  open_novisit : list event -> string -> list (string * string) -> Z -> string + string;
  check_output : list event -> list string -> string + string;
  json_loads : string -> option json;
  quote : string -> string;
  parse_date : json -> option datetime;
  py_repr : json -> string;
}.

(** ** Plugin state and the monad of its methods *)

(** [calibre.ebooks.metadata.book.base.Metadata], the fields the plugin
    assigns. *)
Record Metadata : Type := {
  title : json;
  authors : json;
  identifiers : gmap string string;
  source : option string;
  comments : json;
  publisher : option json;
  pubdate : option datetime;
}.

Inductive qitem : Type :=
  | QMetadata (mi : Metadata)
  | QCover (cdata : string).

Record state : Type := {
  cf_cookie_dtf : option string;                 (* self.prefs.get('cf_cookie_dtf') *)
  _cached_cover : option (gmap string string);   (* None: no such attribute yet *)
  trace : list event;
  result_queue : list qitem;
}.

Section Monad.

Definition M (A : Type) : Type := state -> (exn + A) * state.

Definition ret {A} (a : A) : M A := fun st => (inr a, st).
Definition raise {A} (e : exn) : M A := fun st => (inl e, st).

Definition bind {A B} (c : M A) (k : A -> M B) : M B :=
  fun st =>
    match c st with
    | (inr a, st') => k a st'
    | (inl e, st') => (inl e, st')
    end.

(** [try: c  except Exception as e: h e] *)
Definition try_except {A} (c : M A) (h : exn -> M A) : M A :=
  fun st =>
    match c st with
    | (inr a, st') => (inr a, st')
    | (inl e, st') => h e st'
    end.

Definition get_state : M state := fun st => (inr st, st).

Definition emit (ev : event) : M unit :=
  fun st => (inr tt,
    {| cf_cookie_dtf := cf_cookie_dtf st; _cached_cover := _cached_cover st;
       trace := trace st ++ [ev]; result_queue := result_queue st |}).

Definition queue_put (x : qitem) : M unit :=
  fun st => (inr tt,
    {| cf_cookie_dtf := cf_cookie_dtf st; _cached_cover := _cached_cover st;
       trace := trace st; result_queue := result_queue st ++ [x] |}).

Definition lift {A} (r : exn + A) : M A := fun st => (r, st).

End Monad.

Notation "x <- c ;; k" := (bind c (fun x => k))
  (at level 100, c at next level, right associativity).
Notation "c ;;; k" := (bind c (fun _ => k))
  (at level 100, right associativity).

(** ** The plugin *)

Section Plugin.
Context `{Host}.
Import PyStr Py.

Definition name : string := "DriveThruFiction Metadata".

(** A catalog match, the dict [{'id': pid, 'name': name}]. *)
Record catalog_match : Type := { match_id : json; match_name : json }.

(** [str(v)] and the text an f-string puts for [{v}].  The text of a
    float and of a container is the host's. *)
Definition py_str (v : json) : string :=
  match v with
  | JNull => "None"
  | JBool true => "True"
  | JBool false => "False"
  | JInt n => pretty n
  | JStr s => s
  | _ => py_repr v
  end.

(** [d.get(key, default)] *)
Definition get (d : json) (key : string) (default : json) : exn + json :=
  match d with
  | JDict items => inr (from_option (fun v => v) default (assoc key items))
  | _ => inl AttributeError
  end.

(** [key in d] *)
Definition has (key : string) (d : json) : exn + bool :=
  match d with
  | JDict items => inr (bool_decide (is_Some (assoc key items)))
  | JList l => inr (existsb (fun v => eq_str v key) l)
  | JStr s => inr (contains key s)
  | _ => inl TypeError
  end.

(** [d[key]] once [key in d] holds *)
Definition subscript (d : json) (key : string) : exn + json :=
  match d with
  | JDict items => inr (from_option (fun v => v) JNull (assoc key items))
  | _ => inl TypeError
  end.

(** The items [for x in v] runs over *)
Definition iterate (v : json) : exn + list json :=
  match v with
  | JList l => inr l
  | JDict items => inr (map (fun kv => JStr (fst kv)) items)
  | JStr s => inr (singleton_strs s)
  | _ => inl TypeError
  end.

(** [v.lower()] *)
Definition lower_of (v : json) : exn + string :=
  match v with
  | JStr s => inr (lower s)
  | _ => inl AttributeError
  end.

Definition loads (raw : string) : exn + json :=
  match json_loads raw with
  | Some v => inr v
  | None => inl JSONDecodeError
  end.

Definition sbind {A B} (r : exn + A) (k : A -> exn + B) : exn + B :=
  match r with
  | inr a => k a
  | inl e => inl e
  end.

(** *** Transports *)

Definition dq : string := String (Ascii.ascii_of_N 34) EmptyString.

Definition browser_headers (cookie : option string) : list (string * string) :=
  [ ("User-Agent", "Mozilla/5.0 (Windows NT 10.0; Win64; x64) AppleWebKit/537.36 (KHTML, like Gecko) Chrome/120.0.0.0 Safari/537.36");
    ("Accept", "text/html,application/xhtml+xml,application/xml;q=0.9,image/webp,*/*;q=0.8");
    ("Accept-Language", "en-US,en;q=0.5");
    ("Referer", "https://www.google.com/") ]
  ++ match cookie with
     | Some c => if str_truthy cookie then [("Cookie", "cf_clearance=" +:+ c)] else []
     | None => []
     end.

Definition curl_cmd (cookie : option string) (url : string) (timeout : Z) : list string :=
  [ "curl"; "-L";
    "-A"; "Mozilla/5.0 (X11; Linux x86_64; rv:147.0) Gecko/20100101 Firefox/147.0";
    "-H"; "accept: application/json, text/plain, */*";
    "-H"; "accept-language: en-US,en;q=0.9";
    "-H"; "cache-control: max-age=0";
    "-H"; "sec-ch-ua: " +:+ dq +:+ "Not_A Brand" +:+ dq +:+ ";v=" +:+ dq +:+ "8" +:+ dq
           +:+ ", " +:+ dq +:+ "Chromium" +:+ dq +:+ ";v=" +:+ dq +:+ "120" +:+ dq
           +:+ ", " +:+ dq +:+ "Google Chrome" +:+ dq +:+ ";v=" +:+ dq +:+ "120" +:+ dq;
    "-H"; "sec-ch-ua-mobile: ?0";
    "-H"; "sec-ch-ua-platform: " +:+ dq +:+ "Windows" +:+ dq;
    "-H"; "sec-fetch-dest: document";
    "-H"; "sec-fetch-mode: navigate";
    "-H"; "sec-fetch-site: none";
    "-H"; "sec-fetch-user: ?1";
    "-H"; "upgrade-insecure-requests: 1";
    "--compressed";
    "--max-time"; pretty timeout ]
  ++ match cookie with
     | Some c => if str_truthy cookie then ["-H"; "Cookie: cf_clearance=" +:+ c] else []
     | None => []
     end
  ++ [url].

(** [br.open_novisit(url, timeout=timeout).read()] *)
Definition br_open (url : string) (headers : list (string * string)) (timeout : Z) : M string :=
  st <- get_state ;;
  emit (Open url headers timeout) ;;;
  match open_novisit (trace st) url headers timeout with
  | inl body => ret body
  | inr msg => raise (BrowserError msg)
  end.

Definition _fetch_via_curl (url : string) (timeout : Z) : M string :=
  st <- get_state ;;
  let cmd := curl_cmd (cf_cookie_dtf st) url timeout in
  emit (Curl cmd) ;;;
  match check_output (trace st) cmd with
  | inl out => ret out
  | inr msg => raise (CurlFailed msg)
  end.

Definition access_denied (msg : string) : bool :=
  contains "403" msg || contains "Forbidden" msg.

Definition _fetch_url (url : string) (timeout : Z) : M string :=
  st <- get_state ;;
  let headers := browser_headers (cf_cookie_dtf st) in
  try_except (br_open url headers timeout)
    (fun e =>
       let msg := exn_str e in
       if access_denied msg then _fetch_via_curl url timeout
       else raise e).

(** *** Search *)

Definition search_url (query : string) : string :=
  "https://api.drivethrufiction.com/api/vBeta/search_ahead"
  +:+ "?groupId=" +:+ pretty 25%Z +:+ "&keyword=" +:+ quote query
  +:+ "&siteId=" +:+ pretty 70%Z.

(** The body of [for item in data['data']] *)
Definition search_item (item : json) (results : list catalog_match)
    : exn + list catalog_match :=
  sbind (get item "attributes" (JDict [])) (fun attrs =>
  sbind (get attrs "entityId" JNull) (fun pid =>
  sbind (get attrs "name" JNull) (fun name =>
  if truthy pid && truthy name then
    sbind (lower_of name) (fun lname =>
    if contains "fantasy grounds" lname then inr results
    else inr (results ++ [{| match_id := pid; match_name := name |}]))
  else inr results))).

Fixpoint search_items (items : list json) (results : list catalog_match)
    : exn + list catalog_match :=
  match items with
  | [] => inr results
  | item :: items' => sbind (search_item item results) (search_items items')
  end.

Definition search_results (data : json) : exn + list catalog_match :=
  sbind (has "data" data) (fun present =>
  if present then
    sbind (subscript data "data") (fun d =>
    sbind (iterate d) (fun items => search_items items []))
  else inr []).

Definition _api_search (query : string) (timeout : Z) : M (list catalog_match) :=
  raw_json <- _fetch_via_curl (search_url query) timeout ;;
  data <- lift (loads raw_json) ;;
  lift (search_results data).

(** *** Detail mapping *)

Definition Metadata_new (title authors : json) : Metadata :=
  {| title := title; authors := authors; identifiers := ∅; source := None;
     comments := JNull; publisher := None; pubdate := None |}.

Definition set_identifier (typ val : string) (mi : Metadata) : Metadata :=
  {| title := title mi; authors := authors mi;
     identifiers := <[typ := val]> (identifiers mi); source := source mi;
     comments := comments mi; publisher := publisher mi; pubdate := pubdate mi |}.

Definition set_source (v : string) (mi : Metadata) : Metadata :=
  {| title := title mi; authors := authors mi; identifiers := identifiers mi;
     source := Some v; comments := comments mi; publisher := publisher mi;
     pubdate := pubdate mi |}.

Definition set_comments (v : json) (mi : Metadata) : Metadata :=
  {| title := title mi; authors := authors mi; identifiers := identifiers mi;
     source := source mi; comments := v; publisher := publisher mi;
     pubdate := pubdate mi |}.

Definition set_publisher (v : option json) (mi : Metadata) : Metadata :=
  {| title := title mi; authors := authors mi; identifiers := identifiers mi;
     source := source mi; comments := comments mi; publisher := v;
     pubdate := pubdate mi |}.

Definition set_pubdate (v : option datetime) (mi : Metadata) : Metadata :=
  {| title := title mi; authors := authors mi; identifiers := identifiers mi;
     source := source mi; comments := comments mi; publisher := publisher mi;
     pubdate := v |}.

(** [for inc in root['included']]: the name of the first entry of type
    Publisher that has one; [None] leaves [mi.publisher] as it was. *)
Fixpoint find_publisher (incs : list json) : exn + option json :=
  match incs with
  | [] => inr None
  | inc :: incs' =>
      sbind (get inc "type" JNull) (fun t =>
      if eq_str t "Publisher" then
        sbind (get inc "attributes" (JDict [])) (fun pub_attrs =>
        sbind (get pub_attrs "name" JNull) (fun n =>
        if truthy n then inr (Some n) else find_publisher incs'))
      else find_publisher incs')
  end.

(** [parse_date(date_str)], which raises when the host's parser does *)
Definition call_parse_date (date_str : json) : exn + datetime :=
  match parse_date date_str with
  | Some d => inr d
  | None => inl TypeError
  end.

Definition cache_cover_url (url product_id : string) : M unit :=
  fun st =>
    let cache := from_option (fun m => m) ∅ (_cached_cover st) in
    (inr tt,
     {| cf_cookie_dtf := cf_cookie_dtf st;
        _cached_cover := Some (<[product_id := url]> cache);
        trace := trace st; result_queue := result_queue st |}).

Definition get_cached_cover_url (identifiers : gmap string string) : M (option string) :=
  st <- get_state ;;
  let plugin_id := identifiers !! "drivethrufiction" in
  match plugin_id with
  | Some pid =>
      if str_truthy plugin_id
      then ret (from_option (fun m => m) ∅ (_cached_cover st) !! pid)
      else ret None
  | None => ret None
  end.

Definition _get_product_details (product_id : json) (timeout : Z) : M unit :=
  let url := "https://api.drivethrufiction.com/api/vBeta/products/" +:+ py_str product_id in
  raw_json <- _fetch_via_curl url timeout ;;
  root <- lift (loads raw_json) ;;
  data <- lift (get root "data" (JDict [])) ;;
  attrs <- lift (get data "attributes" (JDict [])) ;;
  desc_obj <- lift (get attrs "description" (JDict [])) ;;
  desc_name <- lift (get desc_obj "name" JNull) ;;
  attrs_name <- lift (get attrs "name" JNull) ;;
  let title := or_ (or_ desc_name attrs_name) (JStr "Unknown") in
  authors <- lift (get attrs "authors" (JList [])) ;;
  let authors := if truthy authors then authors else JList [JStr "Unknown"] in
  let mi := Metadata_new title authors in
  let mi := set_identifier "drivethrufiction" (py_str product_id) mi in
  let mi := set_source name mi in
  comments <- lift (get desc_obj "description" (JStr "")) ;;
  let mi := set_comments comments mi in
  present <- lift (has "included" root) ;;
  mi <- (if present then
           included <- lift (subscript root "included") ;;
           incs <- lift (iterate included) ;;
           found <- lift (find_publisher incs) ;;
           match found with
           | Some n => ret (set_publisher (Some n) mi)
           | None => ret mi
           end
         else ret mi) ;;
  date_str <- lift (get attrs "dateAvailable" JNull) ;;
  mi <- (if truthy date_str then
           try_except
             (d <- lift (call_parse_date date_str) ;; ret (set_pubdate (Some d) mi))
             (fun _ => ret mi)
         else ret mi) ;;
  img_path <- lift (get attrs "image" JNull) ;;
  (if truthy img_path then
     let cover_url := "https://www.drivethrufiction.com/images/" +:+ py_str img_path in
     cache_cover_url cover_url (py_str product_id)
   else ret tt) ;;;
  queue_put (QMetadata mi).

(** *** Identify *)

Definition is_nil {A} (l : list A) : bool :=
  match l with
  | [] => true
  | _ :: _ => false
  end.

(** [clean_title != title] *)
Definition differs (clean_title : string) (title : option string) : bool :=
  match title with
  | Some t => negb (String.eqb clean_title t)
  | None => true
  end.

(** The [try] block of [identify] up to the last search: strategies 1
    to 4. *)
Definition search_cascade (title : option string) (authors : option (list string))
    (query : string) (timeout : Z) : M (list catalog_match) :=
  matches <- _api_search query timeout ;;
  matches <- (if is_nil matches && list_truthy authors then
                let q2 := _create_query title (Some []) in
                if negb (String.eqb q2 query) then _api_search q2 timeout
                else ret matches
              else ret matches) ;;
  if is_nil matches then
    let clean_title := _clean_title title in
    if differs clean_title title then
      matches <- _api_search clean_title timeout ;;
      if is_nil matches then
        let words := split clean_title in
        if (4 <? length words)%nat then
          let short_title := join " " (take 4 words) in
          _api_search short_title timeout
        else ret matches
      else ret matches
    else ret matches
  else ret matches.

(** The search half of [identify]: the product id to fetch, or [None]
    where [identify] returns. *)
Definition resolve (title : option string) (authors : option (list string))
    (timeout : Z) : M (option json) :=
  let query := _create_query title authors in
  if is_empty query then ret None
  else
    try_except
      (matches <- search_cascade title authors query timeout ;;
       match matches with
       | [] => ret None
       | m :: _ => ret (Some (match_id m))
       end)
      (fun _ => ret None).

Definition identify (title : option string) (authors : option (list string))
    (identifiers : gmap string string) (timeout : Z) : M unit :=
  let plugin_id := identifiers !! "drivethrufiction" in
  let product_id := from_option JStr JNull plugin_id in
  product_id <- (if negb (truthy product_id) then resolve title authors timeout
                 else ret (Some product_id)) ;;
  match product_id with
  | Some pid =>
      if truthy pid then
        try_except (_get_product_details pid timeout) (fun _ => ret tt)
      else ret tt
  | None => ret tt
  end.

(** *** Cover download *)

Definition download_cover (identifiers : gmap string string) (timeout : Z) : M unit :=
  cached_url <- get_cached_cover_url identifiers ;;
  match cached_url with
  | Some url =>
      if str_truthy cached_url then
        try_except
          (cdata <- _fetch_via_curl url timeout ;; queue_put (QCover cdata))
          (fun _ => ret tt)
      else ret tt
  | None => ret tt
  end.

End Plugin.

(** ** The settings widget

    [ConfigWidget] holds one line edit; what matters of it is its text. *)

Record ConfigWidget : Type := { cookie_input : string }.

(** [config_widget]: the widget opens on the stored cookie, or on the
    empty text when there is none. *)
Definition config_widget (st : state) : ConfigWidget :=
  {| cookie_input := from_option (fun c => c) EmptyString (cf_cookie_dtf st) |}.

(** [save_settings]: the stripped text of the line edit becomes the
    stored cookie. *)
Definition save_settings (w : ConfigWidget) : M unit :=
  fun st =>
    (inr tt,
     {| cf_cookie_dtf := Some (PyStr.strip (cookie_input w));
        _cached_cover := _cached_cover st;
        trace := trace st; result_queue := result_queue st |}).

(** ** Notions the statements below use *)

Section Notions.
Context `{Host}.
Import PyStr Py.

Definition add_events (evs : list event) (st : state) : state :=
  {| cf_cookie_dtf := cf_cookie_dtf st; _cached_cover := _cached_cover st;
     trace := trace st ++ evs; result_queue := result_queue st |}.

Definition add_results (xs : list qitem) (st : state) : state :=
  {| cf_cookie_dtf := cf_cookie_dtf st; _cached_cover := _cached_cover st;
     trace := trace st; result_queue := result_queue st ++ xs |}.

(** The round trip of the external-process strategy for [url], as [st]
    would issue it. *)
Definition curl_event (st : state) (url : string) (timeout : Z) : event :=
  Curl (curl_cmd (cf_cookie_dtf st) url timeout).

Definition details_url (product_id : json) : string :=
  "https://api.drivethrufiction.com/api/vBeta/products/" +:+ py_str product_id.

Definition is_curl (ev : event) : bool :=
  match ev with
  | Curl _ => true
  | Open _ _ _ => false
  end.

Definition is_ok {A} (r : exn + A) : bool :=
  match r with
  | inr _ => true
  | inl _ => false
  end.

(** The cover cache as a map, empty while the attribute is absent. *)
Definition cover_cache (st : state) : gmap string string :=
  from_option (fun m => m) ∅ (_cached_cover st).

(** *** The cascade, as the specification words it

    The search strategies of [identify] with their numbers, in the
    order tried, each present under the guard the code puts on it. *)
Definition strategies (title : option string) (authors : option (list string))
    : list (nat * string) :=
  let query := _create_query title authors in
  let q2 := _create_query title (Some []) in
  let clean_title := _clean_title title in
  let words := split clean_title in
  [(1%nat, query)]
  ++ (if list_truthy authors && negb (String.eqb q2 query) then [(2%nat, q2)] else [])
  ++ (if differs clean_title title then
        (3%nat, clean_title)
        :: (if (4 <? length words)%nat then [(4%nat, join " " (take 4 words))] else [])
      else []).

Definition candidates (title : option string) (authors : option (list string))
    : list string :=
  map snd (strategies title authors).

(** Try the candidates in order; stop at the first with a match. *)
Fixpoint first_hit (qs : list string) (timeout : Z) : M (list catalog_match) :=
  match qs with
  | [] => ret []
  | q :: qs' =>
      matches <- _api_search q timeout ;;
      if is_nil matches then first_hit qs' timeout else ret matches
  end.

(** *** Search responses made of catalog matches *)

(** [item] is an entry of the search response for the match [(pid, n)]. *)
Definition item_of (item : json) (m : json * string) : Prop :=
  exists fields attrs,
    item = JDict fields /\ assoc "attributes" fields = Some (JDict attrs) /\
    assoc "entityId" attrs = Some (fst m) /\ assoc "name" attrs = Some (JStr (snd m)).

Definition blocked (n : string) : bool := contains "fantasy grounds" (lower n).

Definition to_match (m : json * string) : catalog_match :=
  {| match_id := fst m; match_name := JStr (snd m) |}.

(** *** Detail mapping without the plumbing

    What [_get_product_details] computes from the parsed response: the
    record and the cover URL to cache, if any. *)
Definition date_field (root : json) : json :=
  match sbind (get root "data" (JDict [])) (fun data =>
        sbind (get data "attributes" (JDict [])) (fun attrs =>
        get attrs "dateAvailable" JNull)) with
  | inr v => v
  | inl _ => JNull
  end.

Definition map_details (product_id : json) (root : json)
    : exn + (Metadata * option string) :=
  sbind (get root "data" (JDict [])) (fun data =>
  sbind (get data "attributes" (JDict [])) (fun attrs =>
  sbind (get attrs "description" (JDict [])) (fun desc_obj =>
  sbind (get desc_obj "name" JNull) (fun desc_name =>
  sbind (get attrs "name" JNull) (fun attrs_name =>
  sbind (get attrs "authors" (JList [])) (fun authors =>
  sbind (get desc_obj "description" (JStr "")) (fun comments =>
  sbind (has "included" root) (fun present =>
  sbind (if present then
           sbind (subscript root "included") (fun included =>
           sbind (iterate included) find_publisher)
         else inr None) (fun found =>
  sbind (get attrs "dateAvailable" JNull) (fun date_str =>
  sbind (get attrs "image" JNull) (fun img_path =>
  inr ({| title := or_ (or_ desc_name attrs_name) (JStr "Unknown");
          authors := if truthy authors then authors else JList [JStr "Unknown"];
          identifiers := {[ "drivethrufiction" := py_str product_id ]};
          source := Some name;
          comments := comments;
          publisher := found;
          pubdate := if truthy date_str then parse_date date_str else None |},
       if truthy img_path
       then Some ("https://www.drivethrufiction.com/images/" +:+ py_str img_path)
       else None)))))))))))).

(** *** What a round trip answers, without the plumbing *)

Definition curl_result (st : state) (url : string) (timeout : Z) : exn + string :=
  match check_output (trace st) (curl_cmd (cf_cookie_dtf st) url timeout) with
  | inl out => inr out
  | inr msg => inl (CurlFailed msg)
  end.

Definition search_answer (st : state) (query : string) (timeout : Z)
    : exn + list catalog_match :=
  sbind (curl_result st (search_url query) timeout) (fun raw =>
  sbind (loads raw) search_results).

Definition details_answer (st : state) (product_id : json) (timeout : Z)
    : exn + (Metadata * option string) :=
  sbind (curl_result st (details_url product_id) timeout) (fun raw =>
  sbind (loads raw) (map_details product_id)).

Definition cache_opt (cover : option string) (product_id : json) (st : state) : state :=
  match cover with
  | Some url => snd (cache_cover_url url (py_str product_id) st)
  | None => st
  end.

(** The token [_create_query] takes from the author list. *)
Definition author_token (authors : option (list string)) : option string :=
  match authors with
  | Some (a :: _) => Some a
  | _ => None
  end.

(** The identifier [identify] and the cover lookup read. *)
Definition plugin_id (identifiers : gmap string string) : option string :=
  identifiers !! "drivethrufiction".

(** What the search keeps: an identifier that is true, and a name that
    is a string without the block term. *)
Definition kept (m : catalog_match) : Prop :=
  truthy (match_id m) = true /\
  exists n, match_name m = JStr n /\ blocked n = false.

Definition well_formed (e : json * string) : Prop :=
  truthy (fst e) = true /\ snd e <> EmptyString.

Definition unblocked (e : json * string) : bool :=
  negb (contains "fantasy grounds" (lower (snd e))).

(** *** Bracketed spans *)

Definition is_open (c : ascii) : bool := Ascii.eqb c "(" || Ascii.eqb c "[".
Definition is_close (c : ascii) : bool := Ascii.eqb c ")" || Ascii.eqb c "]".

(** Some opening bracket of [s] has a closing bracket after it. *)
Fixpoint has_span (s : list ascii) : bool :=
  match s with
  | [] => false
  | c :: s' => (is_open c && existsb is_close s') || has_span s'
  end.

Definition one_line (s : string) : bool :=
  forallb (fun c => negb (Ascii.eqb c Re.newline)) (chars s).

(** The text after the first closing bracket of [s], when no line break
    comes before it. *)
Fixpoint after_close (s : list ascii) : option (list ascii) :=
  match s with
  | [] => None
  | c :: s' =>
      if is_close c then Some s'
      else if Ascii.eqb c Re.newline then None
      else after_close s'
  end.

Definition is_bracket (c : ascii) : bool := is_open c || is_close c.

(** *** Version markers

    A marker is a keyword, an optional dot, whitespace, digits and
    further groups of a dot and digits. *)
Definition is_keyword (kw : list ascii) : bool :=
  match kw with
  | [a] => Re.lit_matches true "v" a
  | [a; b; c] =>
      Re.lit_matches true "v" a &&
      ((Re.lit_matches true "e" b && Re.lit_matches true "r" c) ||
       (Re.lit_matches true "o" b && Re.lit_matches true "l" c))
  | _ => false
  end.

Definition is_number (ds : list ascii) : bool :=
  negb (is_nil ds) && forallb is_digit ds.

Definition dotted (gs : list (list ascii)) : list ascii :=
  concat (map (cons "."%char) gs).

Definition marker (kw dot sp ds : list ascii) (gs : list (list ascii)) : list ascii :=
  kw ++ dot ++ sp ++ ds ++ dotted gs.

Definition marker_ok (kw dot sp ds : list ascii) (gs : list (list ascii)) : bool :=
  is_keyword kw
  && (is_nil dot || (length dot =? 1)%nat && forallb (Ascii.eqb ".") dot)
  && forallb is_space sp
  && is_number ds
  && forallb is_number gs.

(** No letter v in any case: no marker starts in such a text. *)
Definition free_of_v (s : list ascii) : bool :=
  forallb (fun c => negb (Re.lit_matches true "v" c)) s.

(** The text before a marker ends outside a word, the text after it
    starts outside a word and not with a dot. *)
Definition ends_outside_word (pre : list ascii) : bool :=
  negb (Re.word_before (last pre)).

Definition starts_outside_word (rest : list ascii) : bool :=
  match rest with
  | [] => true
  | c :: _ => negb (is_word c) && negb (Ascii.eqb "." c)
  end.

(** [rest] is empty or starts with a character outside [cls]. *)
Definition head_fails (cls : ascii -> bool) (rest : list ascii) : bool :=
  match rest with
  | [] => true
  | c :: _ => negb (cls c)
  end.

(** A word of a collapsed string: not empty, no whitespace inside. *)
Definition solid (w : list ascii) : bool :=
  negb (is_nil w) && forallb (fun c => negb (is_space c)) w.

End Notions.

(** *** Further notions *)

Section MoreNotions.
Import PyStr Py.

(** An entry of [included] of type Publisher that has the name [n]. *)
Definition named_publisher (inc n : json) : Prop :=
  exists fields attrs,
    inc = JDict fields /\
    assoc "type" fields = Some (JStr "Publisher") /\
    assoc "attributes" fields = Some (JDict attrs) /\
    assoc "name" attrs = Some n /\ truthy n = true.

(** A search entry with a true identifier and a true name that is not a
    string. *)
Definition misnamed_item (item : json) : Prop :=
  exists fields attrs pid n,
    item = JDict fields /\
    assoc "attributes" fields = Some (JDict attrs) /\
    assoc "entityId" attrs = Some pid /\ truthy pid = true /\
    assoc "name" attrs = Some n /\ truthy n = true /\
    (forall s, n <> JStr s).

(** No opening bracket. *)
Definition free_of_open (s : list ascii) : bool :=
  forallb (fun c => negb (is_open c)) s.

(** Single spaces between the words and none at the ends. *)
Definition normalised (s : string) : bool :=
  String.eqb (join " " (split s)) s.

(** No whitespace at either end. *)
Definition trimmed (s : list ascii) : bool :=
  head_fails is_space s && head_fails is_space (rev s).

End MoreNotions.

(** *** Version markers, by a direct scan

    What the version pattern matches, read off the text from the left
    without a pattern: the statements on markers below are proved of
    the pattern through this scan. *)

Section MarkerScan.
Import PyStr Re.

(** The text behind the number of a marker, read from just after one of
    its digits: more digits, then groups of a dot and digits.  The
    number has to end at a word boundary; a last group that does not is
    given back. *)
Fixpoint number_end (s : list ascii) : option (list ascii) :=
  match s with
  | [] => Some []
  | c :: s' =>
      if is_digit c then number_end s'
      else if Ascii.eqb "." c then
        match s' with
        | d :: _ => if is_digit d then orelse (number_end s') (Some s) else Some s
        | [] => Some s
        end
      else if is_word c then None else Some s
  end.

(** Whitespace, then the number: the text behind it. *)
Definition spaces_then_number (s : list ascii) : option (list ascii) :=
  match lstrip_chars s with
  | d :: s' => if is_digit d then number_end s' else None
  | [] => None
  end.

(** What follows the keyword: an optional dot, whitespace, the number. *)
Definition tail_end (s : list ascii) : option (list ascii) :=
  match s with
  | c :: s' => if Ascii.eqb "." c then spaces_then_number s' else spaces_then_number s
  | [] => None
  end.

(** The text behind the marker that starts [s], if one does. *)
Definition marker_end (s : list ascii) : option (list ascii) :=
  match s with
  | a :: s1 =>
      if lit_matches true "v" a then
        orelse (tail_end s1)
          match s1 with
          | b :: c :: s3 =>
              if (lit_matches true "e" b && lit_matches true "r" c)
                 || (lit_matches true "o" b && lit_matches true "l" c)
              then tail_end s3 else None
          | _ => None
          end
      else None
  | [] => None
  end.

(** What follows a marker neither is a word character nor goes on with
    its number. *)
Definition ends_the_number (rest : list ascii) : bool :=
  match rest with
  | [] => true
  | c :: t => negb (is_word c) && (negb (Ascii.eqb "." c) || head_fails is_digit t)
  end.

(** No marker stands in [s] between a word boundary and a character
    outside words. *)
Definition no_marker (s : list ascii) : Prop :=
  forall a kw dot sp ds gs b,
    s = a ++ marker kw dot sp ds gs ++ b ->
    marker_ok kw dot sp ds gs = true ->
    ends_outside_word a = true -> head_fails is_word b = true -> False.

(** The same, decided by a scan. *)
Fixpoint marker_free (prev : option ascii) (s : list ascii) : bool :=
  match s with
  | [] => true
  | c :: s' =>
      negb (xorb (word_before prev) (is_word c) && bool_decide (is_Some (marker_end s)))
      && marker_free (Some c) s'
  end.

(** Neither a closing bracket nor a line break. *)
Definition inside_span (body : list ascii) : bool :=
  forallb (fun x => negb (is_close x) && negb (Ascii.eqb x newline)) body.

(** The line ends here. *)
Definition at_line_end (rest : list ascii) : bool :=
  match rest with
  | [] => true
  | c :: _ => Ascii.eqb c newline
  end.

(** The parts of the version pattern behind the whitespace. *)
Definition group_re : regex := Seq (Lit true ".") (Plus Digit).

Definition number_re : regex :=
  Seq (Plus Digit) (Seq (Star true group_re) Boundary).

(** The last step of the pattern: the boundary, then the count of what
    is left. *)
Definition at_boundary (g : list ascii -> nat) : option ascii -> list ascii -> option nat :=
  fun p s => rmatch Boundary p s (fun _ r => Some (g r)).

End MarkerScan.

(** *** Calls on one instance *)

Section Calls.
Context `{Host}.






End Calls.

(** The same host with another date parser. *)
Definition with_parser (H : Host) (p : json -> option datetime) : Host :=
  {| open_novisit := @open_novisit H;
     check_output := @check_output H;
     json_loads := @json_loads H;
     quote := @quote H;
     parse_date := p;
     py_repr := @py_repr H |}.

(** ** Hosts given by tables, for the examples *)

Module Demo.

Fixpoint table {A} (key : string) (l : list (string * A)) : option A :=
  match l with
  | [] => None
  | (k, v) :: l' => if String.eqb k key then Some v else table key l'
  end.

Definition served (pages : list (string * string)) (url : string) : string + string :=
  match table url pages with
  | Some body => inl body
  | None => inr "HTTP Error 404: Not Found"
  end.

Definition dates : list (string * datetime) :=
  [ ("1897-05-26T00:00:00-00:00",
     {| year := 1897; month := 5; day := 26; hour := 0; minute := 0; second := 0;
        utcoffset := Some 0%Z |});
    ("2018-04-25T13:39:15-05:00",
     {| year := 2018; month := 4; day := 25; hour := 13; minute := 39; second := 15;
        utcoffset := Some (-18000)%Z |}) ].

Definition demo_parse_date (v : json) : option datetime :=
  match v with
  | JStr s => table s dates
  | _ => None
  end.

(** The browser answers by [browser]; curl serves [pages] by URL (the
    last word of its command line); [docs] lists what the bodies parse
    to. *)
Definition table_host (browser : string -> string + string)
    (pages : list (string * string)) (docs : list (string * json)) : Host :=
  {| open_novisit := fun _ url _ _ => browser url;
     check_output := fun _ cmd => served pages (List.last cmd EmptyString);
     json_loads := fun raw => table raw docs;
     quote := fun q => q;
     parse_date := demo_parse_date;
     py_repr := fun _ => "?" |}.

Definition forbidden (url : string) : string + string :=
  inr "HTTP Error 403: Forbidden".

Definition unreachable (url : string) : string + string :=
  inr "<urlopen error timed out>".

Definition fresh : state :=
  {| cf_cookie_dtf := None; _cached_cover := None; trace := []; result_queue := [] |}.

Definition search_item_json (pid : Z) (n : string) : json :=
  JDict [("attributes", JDict [("entityId", JInt pid); ("name", JStr n)])].

Definition search_response (items : list json) : json :=
  JDict [("data", JList items)].

Definition grimoire_response : json :=
  search_response [ search_item_json 101 "Grimoire - Fantasy Grounds Edition";
                    search_item_json 102 "Grimoire" ].

Definition dracula_envelope : json :=
  JDict [ ("data", JDict [("attributes", JDict [
             ("description", JDict [("name", JStr "Dracula")]);
             ("authors", JList [JStr "Bram Stoker"]);
             ("dateAvailable", JStr "1897-05-26T00:00:00-00:00") ])]);
          ("included", JList [
             JDict [("type", JStr "Publisher");
                    ("attributes", JDict [("name", JStr "Archibald Constable")])] ]) ].

Definition undated_envelope : json :=
  JDict [ ("data", JDict [("attributes", JDict [
             ("description", JDict [("name", JStr "Dracula")]);
             ("authors", JList [JStr "Bram Stoker"]) ])]) ].

Definition misdated_envelope : json :=
  JDict [ ("data", JDict [("attributes", JDict [
             ("description", JDict [("name", JStr "Dracula")]);
             ("authors", JList [JStr "Bram Stoker"]);
             ("dateAvailable", JStr "soon") ])]) ].

Definition cover_envelope : json :=
  JDict [ ("data", JDict [("attributes", JDict [
             ("name", JStr "Dracula");
             ("image", JStr "8957/240640.jpg") ])]) ].

Definition search_page (q : string) : string :=
  "https://api.drivethrufiction.com/api/vBeta/search_ahead?groupId=25&keyword="
  +:+ q +:+ "&siteId=70".

Definition product_page (pid : string) : string :=
  "https://api.drivethrufiction.com/api/vBeta/products/" +:+ pid.

Definition docs : list (string * json) :=
  [ ("<no matches>", search_response []);
    ("<grimoire>", grimoire_response);
    ("<dracula hit>", search_response [search_item_json 240640 "Dracula"]);
    ("<dracula>", dracula_envelope);
    ("<undated>", undated_envelope);
    ("<misdated>", misdated_envelope);
    ("<cover>", cover_envelope) ].

(** Every search comes back empty. *)
Definition silent_host : Host :=
  table_host (fun _ => inl "<no matches>")
    [ (search_page "One Two Three Four Five", "<no matches>");
      (search_page "Bram Stoker", "<no matches>");
      (search_page EmptyString, "<no matches>") ]
    docs.

Definition catalog_host : Host :=
  table_host forbidden
    [ (search_page "Dracula Bram Stoker", "<dracula hit>");
      (search_page "Grimoire", "<grimoire>");
      (product_page "240640", "<dracula>");
      (product_page "7", "<cover>");
      (product_page "8", "<undated>");
      (product_page "9", "<misdated>") ]
    docs.

(** Product 7 with another image. *)
Definition recover_envelope : json :=
  JDict [ ("data", JDict [("attributes", JDict [
             ("name", JStr "Dracula");
             ("image", JStr "1/new.jpg") ])]) ].

(** A catalog that changes the image of its product after the first
    answer. *)
Definition moving_host : Host :=
  {| open_novisit := fun _ url _ _ => forbidden url;
     check_output := fun hist _ => if is_nil hist then inl "<cover>" else inl "<new cover>";
     json_loads := fun raw => table raw (("<new cover>", recover_envelope) :: docs);
     quote := fun q => q;
     parse_date := demo_parse_date;
     py_repr := fun _ => "?" |}.

End Demo.

(** * Properties *)

(** ** How the methods run *)

Section Runs.
Context `{Host}.
Import PyStr Py.

Lemma fetch_via_curl_run url timeout st :
  _fetch_via_curl url timeout st =
    (curl_result st url timeout, add_events [curl_event st url timeout] st).
Proof.
  unfold _fetch_via_curl, curl_result, bind, get_state, emit, ret, raise; simpl.
  destruct (check_output _ _); reflexivity.
Qed.

Lemma api_search_run query timeout st :
  _api_search query timeout st =
    (search_answer st query timeout,
     add_events [curl_event st (search_url query) timeout] st).
Proof.
  unfold _api_search, search_answer, bind. rewrite fetch_via_curl_run.
  destruct (curl_result _ _ _) as [e|raw]; simpl; [reflexivity|].
  unfold lift. destruct (loads raw); reflexivity.
Qed.

Lemma get_product_details_run product_id timeout st :
  _get_product_details product_id timeout st =
    let st1 := add_events [curl_event st (details_url product_id) timeout] st in
    match details_answer st product_id timeout with
    | inl e => (inl e, st1)
    | inr (mi, cover) =>
        (inr tt, add_results [QMetadata mi] (cache_opt cover product_id st1))
    end.
Proof.
  unfold _get_product_details, details_answer, bind.
  fold (details_url product_id). rewrite fetch_via_curl_run.
  destruct (curl_result _ _ _) as [e|raw]; simpl; [reflexivity|].
  unfold lift. destruct (loads raw) as [e|root]; simpl; [reflexivity|].
  unfold map_details.
  destruct (get root "data" _) as [e|data]; simpl; [reflexivity|].
  destruct (get data "attributes" _) as [e|attrs]; simpl; [reflexivity|].
  destruct (get attrs "description" _) as [e|desc_obj]; simpl; [reflexivity|].
  destruct (get desc_obj "name" _) as [e|desc_name]; simpl; [reflexivity|].
  destruct (get attrs "name" _) as [e|attrs_name]; simpl; [reflexivity|].
  destruct (get attrs "authors" _) as [e|authors]; simpl; [reflexivity|].
  destruct (get desc_obj "description" _) as [e|comments]; simpl; [reflexivity|].
  destruct (has "included" root) as [e|present]; simpl; [reflexivity|].
  destruct present.
  - destruct (subscript root "included") as [e|included]; simpl; [reflexivity|].
    destruct (iterate included) as [e|incs]; simpl; [reflexivity|].
    destruct (find_publisher incs) as [e|found]; simpl; [reflexivity|].
    destruct (get attrs "dateAvailable" _) as [e|date_str]; simpl;
      [destruct found; reflexivity|].
    destruct (get attrs "image" _) as [e|img_path]; simpl;
      [destruct found, (truthy date_str); try reflexivity;
       unfold try_except, call_parse_date; simpl;
       destruct (parse_date date_str); reflexivity|].
    unfold try_except, call_parse_date, ret, queue_put, add_results, cache_opt.
    destruct found, (truthy date_str), (parse_date date_str), (truthy img_path);
      reflexivity.
  - unfold ret; simpl.
    destruct (get attrs "dateAvailable" _) as [e|date_str]; simpl; [reflexivity|].
    destruct (get attrs "image" _) as [e|img_path]; simpl;
      [destruct (truthy date_str); try reflexivity;
       unfold try_except, call_parse_date; simpl;
       destruct (parse_date date_str); reflexivity|].
    unfold try_except, call_parse_date, ret, queue_put, add_results, cache_opt.
    destruct (truthy date_str), (parse_date date_str), (truthy img_path);
      reflexivity.
Qed.

Lemma add_events_app evs1 evs2 st :
  add_events evs2 (add_events evs1 st) = add_events (evs1 ++ evs2) st.
Proof. unfold add_events; simpl. by rewrite app_assoc. Qed.

Lemma add_events_nil st : add_events [] st = st.
Proof. destruct st; unfold add_events; simpl. by rewrite app_nil_r. Qed.

(** The cascade of [identify] is [first_hit] over [candidates]. *)
Lemma search_cascade_first_hit title authors timeout st :
  search_cascade title authors (_create_query title authors) timeout st =
    first_hit (candidates title authors) timeout st.
Proof.
  unfold search_cascade, candidates, strategies.
  destruct (list_truthy authors),
    (negb (String.eqb (_create_query title (Some [])) (_create_query title authors))),
    (differs (_clean_title title) title),
    (4 <? length (split (_clean_title title)))%nat;
    simpl; unfold bind, ret;
    repeat match goal with
      | |- context [_api_search ?q ?t ?s] =>
          destruct (_api_search q t s) as [[?|[|? ?]] ?]; simpl
      end; reflexivity.
Qed.

(** A run of [first_hit] in which no candidate matched issued one
    search per candidate. *)
Lemma first_hit_all_empty qs timeout st st1 :
  first_hit qs timeout st = (inr [], st1) ->
  st1 = add_events (map (fun q => curl_event st (search_url q) timeout) qs) st.
Proof.
  revert st; induction qs as [|q qs IH]; intros st; simpl.
  - unfold ret. intros [= <-]. by rewrite add_events_nil.
  - unfold bind. rewrite api_search_run.
    destruct (search_answer st q timeout) as [e|[|m ms]]; simpl; try discriminate.
    intros Hrest. apply IH in Hrest. rewrite Hrest, add_events_app. reflexivity.
Qed.

Lemma first_hit_stops pre q post timeout st st1 ms st2 :
  first_hit pre timeout st = (inr [], st1) ->
  _api_search q timeout st1 = (inr ms, st2) ->
  ms <> [] ->
  first_hit (pre ++ q :: post) timeout st = (inr ms, st2).
Proof.
  intros Hpre Hq Hms. revert st Hpre.
  induction pre as [|p pre IH]; intros st; simpl.
  - unfold ret. intros [= <-]. unfold bind. rewrite Hq.
    destruct ms; [congruence | reflexivity].
  - unfold bind. destruct (_api_search p timeout st) as [[e|[|m' ms']] st'];
      simpl; try discriminate. apply IH.
Qed.

(** Every event a run of [first_hit] adds is a curl round trip. *)
Lemma first_hit_trace qs timeout st :
  exists qs', qs' `prefix_of` qs /\
    snd (first_hit qs timeout st) =
      add_events (map (fun q => curl_event st (search_url q) timeout) qs') st.
Proof.
  revert st; induction qs as [|q qs IH]; intros st; simpl.
  - exists []. split; [done|]. by rewrite add_events_nil.
  - unfold bind. rewrite api_search_run.
    destruct (search_answer st q timeout) as [e|[|m ms]]; simpl.
    + exists [q]. split; [by apply prefix_cons, prefix_nil | reflexivity].
    + destruct (IH (add_events [curl_event st (search_url q) timeout] st))
        as (qs' & Hpre & ->).
      exists (q :: qs'). split; [by apply prefix_cons|].
      by rewrite add_events_app.
    + exists [q]. split; [by apply prefix_cons, prefix_nil | reflexivity].
Qed.

Lemma resolve_run title authors timeout st :
  resolve title authors timeout st =
    if is_empty (_create_query title authors) then (inr None, st)
    else
      match first_hit (candidates title authors) timeout st with
      | (inr (m :: _), st') => (inr (Some (match_id m)), st')
      | (_, st') => (inr None, st')
      end.
Proof.
  unfold resolve. destruct (is_empty _); [reflexivity|].
  unfold try_except, bind. rewrite search_cascade_first_hit.
  destruct (first_hit _ _ _) as [[e|[|m ms]] st']; reflexivity.
Qed.

Lemma identify_run title authors ids timeout st :
  identify title authors ids timeout st =
    let given := from_option JStr JNull (plugin_id ids) in
    match (if truthy given then (inr (Some given), st)
           else resolve title authors timeout st) with
    | (inr (Some pid), st1) =>
        if truthy pid then (inr tt, snd (_get_product_details pid timeout st1))
        else (inr tt, st1)
    | (inr None, st1) => (inr tt, st1)
    | (inl e, st1) => (inl e, st1)
    end.
Proof.
  unfold identify, plugin_id, bind. simpl.
  destruct (truthy (from_option JStr JNull (ids !! "drivethrufiction"))) eqn:Hgiven;
    simpl.
  - unfold try_except, ret. rewrite Hgiven.
    destruct (_get_product_details _ _ _) as [[e|[]] st']; reflexivity.
  - destruct (resolve title authors timeout st) as [[e|[pid|]] st1]; try reflexivity.
    destruct (truthy pid); [|reflexivity].
    unfold try_except, ret.
    destruct (_get_product_details _ _ _) as [[e|[]] st']; reflexivity.
Qed.

Lemma get_product_details_trace product_id timeout st :
  trace (snd (_get_product_details product_id timeout st)) =
    trace st ++ [curl_event st (details_url product_id) timeout].
Proof.
  rewrite get_product_details_run; simpl.
  destruct (details_answer _ _ _) as [e|[mi [url|]]]; reflexivity.
Qed.

End Runs.

(** ** The fetcher *)

Section Fetcher.
Context `{Host}.
Import PyStr Py.

(** C1. [_fetch_url] first makes the session round trip.  When that
    raises and the text of the error contains 403 or Forbidden, and only
    then, it makes one curl round trip for the same URL, cookie and
    timeout and returns what curl returns or raises; any other error of
    the session round trip is raised again with no second round trip. *)
Theorem fetch_url_session_then_curl url timeout st :
  let cookie := cf_cookie_dtf st in
  let session := Open url (browser_headers cookie) timeout in
  let fallback := Curl (curl_cmd cookie url timeout) in
  match open_novisit (trace st) url (browser_headers cookie) timeout with
  | inl body =>
      _fetch_url url timeout st = (inr body, add_events [session] st)
  | inr msg =>
      if contains "403" msg || contains "Forbidden" msg then
        _fetch_url url timeout st =
          (match check_output (trace st ++ [session]) (curl_cmd cookie url timeout) with
           | inl out => inr out
           | inr diag => inl (CurlFailed diag)
           end,
           add_events [session; fallback] st)
      else
        _fetch_url url timeout st = (inl (BrowserError msg), add_events [session] st)
  end.
Proof.
  intros cookie session fallback.
  unfold _fetch_url, br_open. unfold bind, get_state, try_except, emit, ret, raise; simpl.
  fold cookie.
  destruct (open_novisit (trace st) url (browser_headers cookie) timeout)
    as [body|msg]; simpl; [reflexivity|].
  unfold access_denied.
  destruct (contains "403" msg || contains "Forbidden" msg); [|reflexivity].
  rewrite fetch_via_curl_run. unfold curl_result, curl_event; simpl.
  fold cookie. f_equal. unfold add_events; simpl. by rewrite <- app_assoc.
Qed.

(** The cookie, the timeout and the URL as the two transports carry them. *)
Lemma transports_carry_the_same_request c url timeout :
  c <> EmptyString ->
  In ("Cookie", "cf_clearance=" +:+ c) (browser_headers (Some c)) /\
  In ("Cookie: cf_clearance=" +:+ c) (curl_cmd (Some c) url timeout) /\
  In (pretty timeout) (curl_cmd (Some c) url timeout) /\
  List.last (curl_cmd (Some c) url timeout) EmptyString = url.
Proof.
  intros Hc. destruct c as [|a c]; [done|].
  unfold browser_headers, curl_cmd; simpl. repeat split.
  - do 4 right. by left.
  - do 30 right. by left.
  - do 28 right. by left.
Qed.

(** C2, as the code has it.  A search round trip and a detail round trip
    are each one run of curl, and nothing [identify] sends goes through
    the session strategy. *)
Theorem round_trips_are_curl_runs query product_id title authors ids timeout st :
  snd (_api_search query timeout st) =
    add_events [curl_event st (search_url query) timeout] st /\
  trace (snd (_get_product_details product_id timeout st)) =
    trace st ++ [curl_event st (details_url product_id) timeout] /\
  exists evs,
    trace (snd (identify title authors ids timeout st)) = trace st ++ evs /\
    forallb is_curl evs = true.
Proof.
  split; [by rewrite api_search_run|].
  split; [apply get_product_details_trace|].
  assert (Hres : exists evs, trace (snd (resolve title authors timeout st)) = trace st ++ evs
                 /\ forallb is_curl evs = true
                 /\ exists r, fst (resolve title authors timeout st) = inr r).
  { rewrite resolve_run. destruct (is_empty _).
    - exists []. simpl. rewrite app_nil_r. eauto.
    - destruct (first_hit_trace (candidates title authors) timeout st)
        as (qs' & _ & Hsnd).
      exists (map (fun q => curl_event st (search_url q) timeout) qs').
      destruct (first_hit _ _ _) as [[e|[|m ms]] st']; simpl in *; subst st';
        (split; [reflexivity|]); (split; [|eauto]);
        apply forallb_forall; intros ev [q [<- _]]%in_map_iff; reflexivity. }
  rewrite identify_run; simpl.
  destruct (truthy (from_option JStr JNull (plugin_id ids))) eqn:Hgiven.
  - rewrite Hgiven. exists [curl_event st (details_url (from_option JStr JNull (plugin_id ids))) timeout].
    split; [apply get_product_details_trace | reflexivity].
  - destruct Hres as (evs & Htr & Hall & r & Hr).
    destruct (resolve title authors timeout st) as [[e|[pid|]] st1]; simpl in *;
      try discriminate.
    + destruct (truthy pid); simpl.
      * exists (evs ++ [curl_event st1 (details_url pid) timeout]).
        rewrite get_product_details_trace, Htr, <- app_assoc.
        split; [reflexivity|]. rewrite forallb_app, Hall. reflexivity.
      * exists evs. by split.
    + exists evs. by split.
Qed.

End Fetcher.

(** C2 as stated fails: on a host whose browser answers every request, a
    search still sends nothing but a curl command, while [_fetch_url] for
    the same URL sends the session request. *)
Lemma search_round_trip_skips_the_fetcher :
  ~ (forall (H : Host) query timeout st,
       trace (snd (_api_search query timeout st)) =
       trace (snd (_fetch_url (search_url query) timeout st))).
Proof.
  intros Hall.
  specialize (Hall Demo.silent_host "Bram Stoker" 30%Z Demo.fresh).
  vm_compute in Hall. discriminate Hall.
Qed.

(** The fetcher on a blocked browser and on an unreachable one. *)
Example fetch_url_blocked_browser :
  fst (_fetch_url (H := Demo.catalog_host) (Demo.product_page "7") 30 Demo.fresh)
    = inr "<cover>" /\
  map is_curl (trace (snd (_fetch_url (H := Demo.catalog_host)
                             (Demo.product_page "7") 30 Demo.fresh)))
    = [false; true].
Proof. split; vm_compute; reflexivity. Qed.

Example fetch_url_unreachable_browser :
  let host := Demo.table_host Demo.unreachable [] [] in
  fst (_fetch_url (H := host) (Demo.product_page "7") 30 Demo.fresh)
    = inl (BrowserError "<urlopen error timed out>") /\
  map is_curl (trace (snd (_fetch_url (H := host) (Demo.product_page "7") 30 Demo.fresh)))
    = [false].
Proof. split; vm_compute; reflexivity. Qed.

(** ** The query builder and the cascade *)

Section Cascade.
Context `{Host}.
Import PyStr Py.

Lemma search_item_kept item results results' :
  Forall kept results ->
  search_item item results = inr results' ->
  Forall kept results'.
Proof.
  intros Hres. unfold search_item.
  destruct (get item "attributes" _) as [e|attrs]; simpl; [discriminate|].
  destruct (get attrs "entityId" _) as [e|pid]; simpl; [discriminate|].
  destruct (get attrs "name" _) as [e|n]; simpl; [discriminate|].
  destruct (truthy pid) eqn:Hpid; simpl; [|by intros [= <-]].
  destruct (truthy n) eqn:Hn; simpl; [|by intros [= <-]].
  destruct n as [| | | |s| |]; simpl; try discriminate.
  fold (blocked s). destruct (blocked s) eqn:Hb; intros [= <-]; [done|].
  apply Forall_app; split; [done|].
  constructor; [|constructor]. split; [done|]. by exists s.
Qed.

Lemma search_items_kept items results results' :
  Forall kept results ->
  search_items items results = inr results' ->
  Forall kept results'.
Proof.
  revert results; induction items as [|item items IH]; intros results Hres; simpl.
  - by intros [= <-].
  - destruct (search_item item results) as [e|r1] eqn:Hitem; simpl; [discriminate|].
    apply IH. by eapply search_item_kept.
Qed.

Lemma search_results_kept data ms :
  search_results data = inr ms -> Forall kept ms.
Proof.
  unfold search_results.
  destruct (has "data" data) as [e|[]]; simpl; try discriminate.
  - destruct (subscript data "data") as [e|d]; simpl; [discriminate|].
    destruct (iterate d) as [e|items]; simpl; [discriminate|].
    by apply search_items_kept.
  - by intros [= <-].
Qed.

Lemma search_answer_kept st query timeout ms :
  search_answer st query timeout = inr ms -> Forall kept ms.
Proof.
  unfold search_answer.
  destruct (curl_result _ _ _) as [e|raw]; simpl; [discriminate|].
  destruct (loads raw) as [e|data]; simpl; [discriminate|].
  apply search_results_kept.
Qed.

(** C3, as the code has it.  With no title, no author token and no
    identifier the query is empty and [identify] returns at once: no
    round trip, no result, no change of state. *)
Theorem no_tokens_no_search title authors ids timeout st :
  str_truthy title = false ->
  str_truthy (author_token authors) = false ->
  str_truthy (plugin_id ids) = false ->
  _create_query title authors = EmptyString /\
  identify title authors ids timeout st = (inr tt, st).
Proof.
  intros Htitle Hauthor Hid.
  assert (Hq : _create_query title authors = EmptyString).
  { unfold _create_query. rewrite Htitle.
    destruct title as [t|], authors as [[|a l]|]; simpl in *; try reflexivity;
      destruct a; simpl in *; try discriminate; reflexivity. }
  split; [exact Hq|].
  rewrite identify_run; simpl.
  replace (truthy (from_option JStr JNull (plugin_id ids))) with false
    by (destruct (plugin_id ids); simpl in *; congruence).
  rewrite resolve_run, Hq. reflexivity.
Qed.

(** C4. Let the candidates before [q] have come back without a match and
    let the search for [q] return the matches [ms], not empty.  Then the
    cascade returns [ms] having sent the searches up to [q] and none for
    a later candidate, and [identify] goes on with the one detail round
    trip for the first match. *)
Theorem cascade_stops_at_first_match title authors ids timeout st
    pre q post st1 m ms st2 :
  candidates title authors = pre ++ q :: post ->
  first_hit pre timeout st = (inr [], st1) ->
  _api_search q timeout st1 = (inr (m :: ms), st2) ->
  search_cascade title authors (_create_query title authors) timeout st
    = (inr (m :: ms), st2) /\
  trace st2 =
    trace st ++ map (fun c => curl_event st (search_url c) timeout) (pre ++ [q]) /\
  (is_empty (_create_query title authors) = false ->
   str_truthy (plugin_id ids) = false ->
   trace (snd (identify title authors ids timeout st)) =
     trace st ++ map (fun c => curl_event st (search_url c) timeout) (pre ++ [q])
              ++ [curl_event st (details_url (match_id m)) timeout]).
Proof.
  intros Hcand Hpre Hq.
  assert (Hrun : first_hit (candidates title authors) timeout st = (inr (m :: ms), st2)).
  { rewrite Hcand. by eapply first_hit_stops. }
  assert (Htrace : trace st2 =
    trace st ++ map (fun c => curl_event st (search_url c) timeout) (pre ++ [q])).
  { apply first_hit_all_empty in Hpre. subst st1.
    rewrite api_search_run in Hq. injection Hq as _ <-.
    rewrite add_events_app, map_app. reflexivity. }
  split; [by rewrite search_cascade_first_hit|].
  split; [exact Htrace|].
  intros Hquery Hid.
  assert (Hm : truthy (match_id m) = true).
  { rewrite api_search_run in Hq. injection Hq as Hans _.
    apply search_answer_kept in Hans. by inversion Hans as [|? ? [? _]]. }
  rewrite identify_run; simpl.
  replace (truthy (from_option JStr JNull (plugin_id ids))) with false
    by (destruct (plugin_id ids); simpl in *; congruence).
  rewrite resolve_run, Hquery, Hrun. cbv beta iota. rewrite Hm.
  cbn [snd]. rewrite get_product_details_trace, Htrace.
  rewrite <- app_assoc. do 3 f_equal.
  apply first_hit_all_empty in Hpre. subst st1.
  rewrite api_search_run in Hq. by injection Hq as _ <-.
Qed.

(** C6, as the code has it.  The cascade of [identify] tries the
    strategies listed by [strategies], and the fourth is among them
    exactly when cleaning changed the title and the cleaned title has
    more than four words. *)
Theorem short_title_needs_a_changed_title title authors timeout st :
  search_cascade title authors (_create_query title authors) timeout st
    = first_hit (map snd (strategies title authors)) timeout st /\
  (In 4%nat (map fst (strategies title authors)) <->
   differs (_clean_title title) title = true /\
   (4 < length (split (_clean_title title)))%nat).
Proof.
  split; [apply search_cascade_first_hit|].
  unfold strategies.
  destruct (list_truthy authors && _), (differs (_clean_title title) title);
    simpl; destruct (Nat.ltb_spec 4 (length (split (_clean_title title))));
    simpl; intuition (try discriminate; try lia).
Qed.

End Cascade.

(** C3 as stated fails: with no title and the author list [["Bram Stoker"]]
    the query is the author, and [identify] searches for it. *)
Lemma author_alone_is_searched :
  ~ (forall (H : Host) title authors timeout st,
       str_truthy title = false ->
       _create_query title authors = EmptyString /\
       trace (snd (identify title authors ∅ timeout st)) = trace st).
Proof.
  intros Hall.
  destruct (Hall Demo.silent_host None (Some ["Bram Stoker"]) 30%Z Demo.fresh eq_refl)
    as [Hq _].
  vm_compute in Hq. discriminate Hq.
Qed.

Example author_alone_round_trips :
  _create_query None (Some ["Bram Stoker"]) = "Bram Stoker" /\
  trace (snd (identify (H := Demo.silent_host) None (Some ["Bram Stoker"]) ∅ 30 Demo.fresh))
    = map (fun q => curl_event Demo.fresh
                      (search_url (H := Demo.silent_host) q) 30)
        ["Bram Stoker"; EmptyString; EmptyString].
Proof. split; vm_compute; reflexivity. Qed.

Lemma no_tokens_no_search_witness :
  _create_query None (Some []) = EmptyString /\
  identify (H := Demo.silent_host) None (Some []) ∅ 30 Demo.fresh = (inr tt, Demo.fresh).
Proof.
  apply (no_tokens_no_search (H := Demo.silent_host) None (Some []) ∅ 30%Z Demo.fresh);
    reflexivity.
Defined.

(** C6 as stated fails: the title below has five words and cleaning leaves
    it as it is; no search finds anything, and yet the only search sent is
    the one for the whole title. *)
Lemma unchanged_long_title_has_no_short_search :
  let title := Some "One Two Three Four Five" in
  (4 < length (PyStr.split (_clean_title title)))%nat /\
  search_cascade (H := Demo.silent_host) title None (_create_query title None) 30 Demo.fresh
    = (inr [],
       add_events [curl_event Demo.fresh
                     (search_url (H := Demo.silent_host) "One Two Three Four Five") 30]
         Demo.fresh) /\
  ~ In 4%nat (map fst (strategies title None)).
Proof.
  split; [vm_compute; lia|]. split; [vm_compute; reflexivity|].
  vm_compute. intuition discriminate.
Qed.

Lemma cascade_stops_at_first_match_witness :
  let title := Some "Dracula" in
  let authors := Some ["Bram Stoker"] in
  trace (snd (identify (H := Demo.catalog_host) title authors ∅ 30 Demo.fresh)) =
    [ curl_event Demo.fresh
        (search_url (H := Demo.catalog_host) "Dracula Bram Stoker") 30;
      curl_event Demo.fresh
        (details_url (H := Demo.catalog_host) (JInt 240640)) 30 ].
Proof.
  pose proof (cascade_stops_at_first_match (H := Demo.catalog_host)
    (Some "Dracula") (Some ["Bram Stoker"]) ∅ 30%Z Demo.fresh
    [] "Dracula Bram Stoker" ["Dracula"] Demo.fresh
    {| match_id := JInt 240640; match_name := JStr "Dracula" |} []
    (add_events [curl_event Demo.fresh
                   (search_url (H := Demo.catalog_host) "Dracula Bram Stoker") 30]
       Demo.fresh)
    eq_refl eq_refl eq_refl) as (_ & _ & Hid).
  exact (Hid eq_refl eq_refl).
Defined.

(** ** The block term *)

Section BlockTerm.
Context `{Host}.
Import PyStr Py.

Lemma search_item_entry item e results :
  item_of item e -> well_formed e ->
  search_item item results =
    inr (results ++ map to_match (List.filter unblocked [e])).
Proof.
  intros (fields & attrs & -> & Hattrs & Hid & Hname) [Hpid Hn].
  unfold search_item; simpl. rewrite Hattrs; simpl. rewrite Hid, Hname; simpl.
  rewrite Hpid. destruct e as [pid n]; simpl in *.
  destruct n as [|a n]; [done|]. simpl.
  unfold unblocked; simpl.
  destruct (contains "fantasy grounds" (lower (String a n))); simpl;
    [by rewrite app_nil_r | reflexivity].
Qed.

Lemma search_items_entries items entries results :
  Forall2 item_of items entries -> Forall well_formed entries ->
  search_items items results =
    inr (results ++ map to_match (List.filter unblocked entries)).
Proof.
  intros Hitems. revert results.
  induction Hitems as [|item e items entries Hitem _ IH]; intros results Hwf; simpl.
  - by rewrite app_nil_r.
  - apply Forall_cons in Hwf as [He Hwf].
    rewrite (search_item_entry item e results Hitem He); simpl.
    rewrite IH by done. unfold unblocked at 1 3.
    destruct (negb _); simpl; [by rewrite <- app_assoc | by rewrite app_nil_r].
Qed.

(** C5. Whatever the search response, no match the search keeps has the
    block term in its lower-cased name.  From a response made of catalog
    matches the search keeps exactly the matches without the block term,
    in the order of the response; and when the first search leaves a
    match, [resolve] returns the identifier of the first one left. *)
Theorem block_term_filter title authors timeout st raw fields items entries :
  is_empty (_create_query title authors) = false ->
  curl_result st (search_url (_create_query title authors)) timeout = inr raw ->
  json_loads raw = Some (JDict fields) ->
  assoc "data" fields = Some (JList items) ->
  Forall2 item_of items entries ->
  Forall well_formed entries ->
  let remaining :=
    List.filter (fun e => negb (contains "fantasy grounds" (lower (snd e)))) entries in
  (forall data ms,
     search_results data = inr ms ->
     Forall (fun m => exists n, match_name m = JStr n /\
                        contains "fantasy grounds" (lower n) = false) ms) /\
  search_results (JDict fields) = inr (map to_match remaining) /\
  match remaining with
  | e :: _ =>
      resolve title authors timeout st =
        (inr (Some (fst e)),
         add_events [curl_event st (search_url (_create_query title authors)) timeout] st)
  | [] => search_answer st (_create_query title authors) timeout = inr []
  end.
Proof.
  intros Hquery Hraw Hloads Hdata Hitems Hwf remaining.
  assert (Hres : search_results (JDict fields) = inr (map to_match remaining)).
  { unfold search_results; simpl. rewrite Hdata.
    rewrite bool_decide_eq_true_2 by eauto. simpl.
    by rewrite (search_items_entries items entries [] Hitems Hwf). }
  assert (Hans : search_answer st (_create_query title authors) timeout
                 = inr (map to_match remaining)).
  { unfold search_answer. rewrite Hraw; simpl. unfold loads. by rewrite Hloads. }
  split; [|split; [exact Hres|]].
  - intros data ms Hdata'. eapply Forall_impl; [by apply search_results_kept in Hdata'|].
    intros m [_ (n & Hn & Hb)]. by exists n.
  - destruct remaining as [|e rest] eqn:Hrem; [exact Hans|].
    rewrite resolve_run, Hquery. unfold candidates, strategies; simpl.
    unfold bind. rewrite api_search_run, Hans. reflexivity.
Qed.

End BlockTerm.

Lemma block_term_filter_witness :
  search_results Demo.grimoire_response
    = inr [{| match_id := JInt 102; match_name := JStr "Grimoire" |}] /\
  resolve (H := Demo.catalog_host) (Some "Grimoire") None 30 Demo.fresh
    = (inr (Some (JInt 102)),
       add_events [curl_event Demo.fresh
                     (search_url (H := Demo.catalog_host) "Grimoire") 30] Demo.fresh).
Proof.
  pose proof (block_term_filter (H := Demo.catalog_host)
    (Some "Grimoire") None 30%Z Demo.fresh "<grimoire>"
    [("data", JList [ Demo.search_item_json 101 "Grimoire - Fantasy Grounds Edition";
                      Demo.search_item_json 102 "Grimoire" ])]
    [ Demo.search_item_json 101 "Grimoire - Fantasy Grounds Edition";
      Demo.search_item_json 102 "Grimoire" ]
    [ (JInt 101, "Grimoire - Fantasy Grounds Edition"); (JInt 102, "Grimoire") ]
    eq_refl eq_refl eq_refl eq_refl) as Hthm.
  assert (Hitem : forall pid n,
            item_of (Demo.search_item_json pid n) (JInt pid, n)).
  { intros pid n. eexists _, _. repeat split; reflexivity. }
  assert (Hitems : Forall2 item_of
            [ Demo.search_item_json 101 "Grimoire - Fantasy Grounds Edition";
              Demo.search_item_json 102 "Grimoire" ]
            [ (JInt 101, "Grimoire - Fantasy Grounds Edition"); (JInt 102, "Grimoire") ]).
  { repeat constructor; apply Hitem. }
  specialize (Hthm Hitems).
  assert (Hwf : Forall well_formed
            [ (JInt 101, "Grimoire - Fantasy Grounds Edition"); (JInt 102, "Grimoire") ]).
  { repeat constructor; discriminate. }
  destruct (Hthm Hwf) as (_ & Hres & Hid). split; [exact Hres | exact Hid].
Defined.

(** ** Title cleaning *)

Section Cleaning.
Import PyStr Re.

Lemma chars_str l : chars (str l) = l.
Proof. apply String.list_ascii_of_string_of_list_ascii. Qed.

Lemma star_loop_S body greedy k n prev s :
  star_loop body greedy k (S n) prev s =
    let again :=
      body prev s (fun p' s' =>
        if (length s' <? length s)%nat then star_loop body greedy k n p' s' else None) in
    if greedy then orelse again (k prev s) else orelse (k prev s) again.
Proof. reflexivity. Qed.

Lemma star_loop_greedy body k n prev s :
  star_loop body true k (S n) prev s =
    orelse
      (body prev s (fun p' s' =>
         if (length s' <? length s)%nat then star_loop body true k n p' s' else None))
      (k prev s).
Proof. reflexivity. Qed.

Lemma sub_go_cons r n prev c s' :
  sub_go r (S n) prev (c :: s') =
    match match_at r prev (c :: s') with
    | Some (S m) => sub_go r n (last (take (S m) (c :: s'))) (drop (S m) (c :: s'))
    | _ => c :: sub_go r n (Some c) s'
    end.
Proof. reflexivity. Qed.

Lemma forallb_drop {A} (P : A -> bool) n l :
  forallb P l = true -> forallb P (drop n l) = true.
Proof.
  revert n; induction l as [|a l IH]; intros [|n]; simpl; auto.
  intros [_ Hl]%andb_prop. by apply IH.
Qed.

(** [re.sub] with an empty replacement only removes characters. *)
Lemma sub_go_forallb P r n prev s :
  forallb P s = true -> forallb P (sub_go r n prev s) = true.
Proof.
  revert prev s; induction n as [|n IH]; intros prev s Hs; [by destruct s|].
  destruct s as [|c s']; [done|]. rewrite sub_go_cons.
  destruct (match_at r prev (c :: s')) as [[|m]|].
  - simpl in *. apply andb_prop in Hs as [-> Hs]. by apply IH.
  - apply IH. by apply forallb_drop.
  - simpl in *. apply andb_prop in Hs as [-> Hs]. by apply IH.
Qed.

Lemma close_class c : existsb (Ascii.eqb c) [")"; "]"]%char = is_close c.
Proof. unfold is_close; simpl. by rewrite orb_false_r. Qed.

Lemma open_class c : existsb (Ascii.eqb c) ["("; "["]%char = is_open c.
Proof. unfold is_open; simpl. by rewrite orb_false_r. Qed.

(** The lazy [.*?] followed by a closing bracket stops at the first
    closing bracket of the line. *)
Lemma lazy_dot_then_close L n prev s :
  length s <= n ->
  star_loop (rmatch Dot) false
    (fun p' s' => rmatch (OneOf [")"; "]"]%char) p' s'
                    (fun _ rest => Some (L - length rest))) n prev s
  = match after_close s with
    | Some rest => Some (L - length rest)
    | None => None
    end.
Proof.
  revert prev s; induction n as [|n IH]; intros prev s Hlen.
  - destruct s; [reflexivity | simpl in Hlen; lia].
  - rewrite star_loop_S. destruct s as [|c s']; [reflexivity|].
    cbn [rmatch step after_close]. rewrite close_class.
    destruct (is_close c); [reflexivity|]. cbn [orelse].
    destruct (Ascii.eqb c newline); [reflexivity|]. cbn [negb].
    replace (length s' <? length (c :: s'))%nat with true
      by (symmetry; apply Nat.ltb_lt; simpl; lia).
    apply IH. simpl in Hlen. lia.
Qed.

Lemma match_at_bracket prev c s' :
  match_at bracket_re prev (c :: s') =
    if is_open c then
      match after_close s' with
      | Some rest => Some (S (length s') - length rest)
      | None => None
      end
    else None.
Proof.
  unfold match_at, bracket_re. cbn [rmatch step]. rewrite open_class.
  destruct (is_open c); [|reflexivity].
  apply (lazy_dot_then_close (length (c :: s')) (length s') (Some c) s'). lia.
Qed.

Lemma after_close_drop s rest :
  after_close s = Some rest ->
  length rest < length s /\ drop (length s - length rest) s = rest.
Proof.
  revert rest; induction s as [|c s IH]; intros rest; simpl; [discriminate|].
  destruct (is_close c).
  - intros [= <-]. split; [lia|]. by replace (S (length s) - length s) with 1 by lia.
  - destruct (Ascii.eqb c newline); [discriminate|].
    intros [Hlt Hdrop]%IH. split; [lia|].
    replace (S (length s) - length rest) with (S (length s - length rest)) by lia.
    exact Hdrop.
Qed.

Lemma after_close_one_line s rest :
  after_close s = Some rest ->
  forallb (fun c => negb (Ascii.eqb c newline)) s = true ->
  forallb (fun c => negb (Ascii.eqb c newline)) rest = true.
Proof.
  intros [_ <-]%after_close_drop. apply forallb_drop.
Qed.

Lemma after_close_none s :
  after_close s = None ->
  forallb (fun c => negb (Ascii.eqb c newline)) s = true ->
  forallb (fun c => negb (is_close c)) s = true.
Proof.
  induction s as [|c s IH]; simpl; [done|].
  destruct (is_close c); [discriminate|].
  destruct (Ascii.eqb c newline); simpl; [discriminate|]. exact IH.
Qed.

Lemma no_close_no_exists s :
  forallb (fun c => negb (is_close c)) s = true -> existsb is_close s = false.
Proof.
  induction s as [|c s IH]; simpl; [done|].
  destruct (is_close c); simpl; [discriminate | exact IH].
Qed.

(** After the bracket pattern is taken out of a text without line breaks,
    no opening bracket has a closing bracket after it. *)
Lemma sub_bracket_no_span n prev s :
  length s <= n ->
  forallb (fun c => negb (Ascii.eqb c newline)) s = true ->
  has_span (sub_go bracket_re n prev s) = false.
Proof.
  revert prev s; induction n as [|n IH]; intros prev s Hlen Hline.
  - destruct s; [reflexivity | simpl in Hlen; lia].
  - destruct s as [|c s']; [reflexivity|].
    simpl in Hlen. rewrite sub_go_cons, match_at_bracket.
    pose proof Hline as Hline'. simpl in Hline'.
    apply andb_prop in Hline' as [_ Hline'].
    destruct (is_open c) eqn:Hopen.
    + destruct (after_close s') as [rest|] eqn:Hclose.
      * destruct (after_close_drop _ _ Hclose) as [Hlt Hdrop].
        replace (S (length s') - length rest) with (S (length s' - length rest)) by lia.
        cbn [drop]. rewrite Hdrop. apply IH; [lia|].
        by eapply after_close_one_line.
      * cbn [has_span]. rewrite IH by (done || lia).
        rewrite no_close_no_exists; [by rewrite andb_false_r|].
        apply sub_go_forallb. by apply after_close_none.
    + cbn [has_span]. rewrite Hopen. simpl. apply IH; [lia | done].
Qed.

(** *** Splitting and joining keep the brackets *)

Lemma concat_flush cur ws : concat (flush cur ws) = rev cur ++ concat ws.
Proof. destruct cur; reflexivity. Qed.

Lemma filter_split_go (P : ascii -> bool) cur t :
  (forall c, is_space c = true -> P c = false) ->
  List.filter P (concat (split_go cur t)) = List.filter P (rev cur ++ t).
Proof.
  intros Hspace. revert cur; induction t as [|c t IH]; intros cur; simpl.
  - by rewrite concat_flush.
  - destruct (is_space c) eqn:Hc.
    + rewrite concat_flush, !List.filter_app, IH. simpl. by rewrite (Hspace c Hc).
    + rewrite IH. simpl. by rewrite <- app_assoc.
Qed.

Lemma filter_join_chars (P : ascii -> bool) sep ws :
  List.filter P sep = [] ->
  List.filter P (join_chars sep ws) = List.filter P (concat ws).
Proof.
  intros Hsep. induction ws as [|w ws IH]; [reflexivity|].
  destruct ws as [|w' ws].
  - simpl. by rewrite app_nil_r.
  - change (join_chars sep (w :: w' :: ws)) with (w ++ sep ++ join_chars sep (w' :: ws)).
    change (concat (w :: w' :: ws)) with (w ++ concat (w' :: ws)).
    by rewrite !List.filter_app, Hsep, IH.
Qed.

Lemma space_is_no_bracket c : is_space c = true -> is_bracket c = false.
Proof.
  unfold is_bracket, is_open, is_close.
  destruct (Ascii.eqb_spec c "("); [by subst|].
  destruct (Ascii.eqb_spec c "["); [by subst|].
  destruct (Ascii.eqb_spec c ")"); [by subst|].
  destruct (Ascii.eqb_spec c "]"); [by subst|]. done.
Qed.

Lemma brackets_join_split t :
  List.filter is_bracket (join_chars [" "%char] (split_chars t)) = List.filter is_bracket t.
Proof.
  rewrite filter_join_chars by reflexivity. unfold split_chars.
  by rewrite (filter_split_go is_bracket [] t space_is_no_bracket).
Qed.

Lemma existsb_close_brackets s :
  existsb is_close (List.filter is_bracket s) = existsb is_close s.
Proof.
  induction s as [|c s IH]; [reflexivity|]. simpl. unfold is_bracket at 1.
  destruct (is_open c), (is_close c) eqn:Hc; simpl; rewrite ?Hc, IH; reflexivity.
Qed.

Lemma has_span_brackets s : has_span s = has_span (List.filter is_bracket s).
Proof.
  induction s as [|c s IH]; [reflexivity|]. simpl. unfold is_bracket at 1.
  destruct (is_open c) eqn:Ho, (is_close c) eqn:Hc; simpl;
    rewrite ?Ho, ?existsb_close_brackets, IH; reflexivity.
Qed.

(** *** The words of a split are solid *)

Lemma solid_rev cur :
  cur <> [] -> forallb (fun c => negb (is_space c)) cur = true -> solid (rev cur) = true.
Proof.
  intros Hne Hcur. unfold solid. apply andb_true_intro; split.
  - destruct cur as [|c cur]; [done|]. simpl. by destruct (rev cur).
  - apply forallb_forall. intros c Hin%in_rev.
    by apply (proj1 (forallb_forall _ _) Hcur).
Qed.

Lemma split_go_solid cur t :
  forallb (fun c => negb (is_space c)) cur = true ->
  forallb solid (split_go cur t) = true.
Proof.
  revert cur; induction t as [|c t IH]; intros cur Hcur; simpl.
  - destruct cur as [|a cur]; [reflexivity|]. simpl.
    rewrite andb_true_r. by apply (solid_rev (a :: cur)).
  - destruct (is_space c) eqn:Hc.
    + destruct cur as [|a cur]; simpl; [by apply IH|].
      apply andb_true_intro; split; [by apply (solid_rev (a :: cur)) | by apply IH].
    + apply IH. simpl. by rewrite Hc.
Qed.

Lemma chars_clean_title s :
  is_empty s = false ->
  chars (_clean_title (Some s)) =
    join_chars [" "%char]
      (split_chars (sub_chars bracket_re (sub_chars version_re (chars s)))).
Proof.
  intros Hs. unfold _clean_title. rewrite Hs.
  unfold join, split, sub. rewrite !chars_str, map_map.
  rewrite (map_ext _ (fun w => w)) by (intros w; apply chars_str).
  by rewrite map_id.
Qed.

(** *** A version marker is matched whole *)

Ltac by_char c :=
  destruct c as [[] [] [] [] [] [] [] []]; cbv; try reflexivity; try discriminate.

Lemma lit_dot c : lit_matches true "." c = Ascii.eqb "." c.
Proof. by_char c. Qed.

Lemma digit_is_word c : is_digit c = true -> is_word c = true.
Proof. by_char c. Qed.

Lemma digit_is_no_space c : is_digit c = true -> is_space c = false.
Proof. by_char c. Qed.

Lemma digit_is_no_dot c : is_digit c = true -> Ascii.eqb "." c = false.
Proof. by_char c. Qed.

Lemma space_is_no_dot c : is_space c = true -> Ascii.eqb "." c = false.
Proof. by_char c. Qed.

Lemma no_word_no_digit c : is_word c = false -> is_digit c = false.
Proof. by_char c. Qed.

Lemma lit_v_is_word c : lit_matches true "v" c = true -> is_word c = true.
Proof. by_char c. Qed.

Lemma lit_e_facts c :
  lit_matches true "e" c = true ->
  Ascii.eqb "." c = false /\ is_space c = false /\ is_digit c = false.
Proof. by_char c; intros _; repeat split. Qed.

Lemma lit_o_facts c :
  lit_matches true "o" c = true ->
  Ascii.eqb "." c = false /\ is_space c = false /\ is_digit c = false /\
  lit_matches true "e" c = false.
Proof. by_char c; intros _; repeat split. Qed.

Lemma rmatch_Seq r1 r2 prev s k :
  rmatch (Seq r1 r2) prev s k = rmatch r1 prev s (fun p' s' => rmatch r2 p' s' k).
Proof. reflexivity. Qed.

Lemma rmatch_Alt r1 r2 prev s k :
  rmatch (Alt r1 r2) prev s k = orelse (rmatch r1 prev s k) (rmatch r2 prev s k).
Proof. reflexivity. Qed.

Lemma rmatch_Eps prev s k : rmatch Eps prev s k = k prev s.
Proof. reflexivity. Qed.

Lemma rmatch_Lit ic p prev s k :
  rmatch (Lit ic p) prev s k = step (lit_matches ic p) s k.
Proof. reflexivity. Qed.

Lemma rmatch_Star greedy r prev s k :
  rmatch (Star greedy r) prev s k = star_loop (rmatch r) greedy k (length s) prev s.
Proof. reflexivity. Qed.

(** A greedy class repetition runs to the end of the run of the class. *)
Lemma greedy_class (cls : ascii -> bool) r k x rest :
  (forall p s k', rmatch r p s k' = step cls s k') ->
  head_fails cls rest = true ->
  (forall c, cls c = true -> k (Some c) rest = Some x) ->
  forall cs n prev,
    forallb cls cs = true ->
    k prev rest = Some x ->
    length (cs ++ rest) <= n ->
    star_loop (rmatch r) true k n prev (cs ++ rest) = Some x.
Proof.
  intros Hr Hrest Hk cs. induction cs as [|c cs IH]; intros n prev Hcs Hp Hn.
  - simpl. destruct n; [exact Hp|]. rewrite star_loop_greedy. rewrite Hr.
    destruct rest as [|c rest]; simpl in *; [by rewrite Hp|].
    apply negb_true_iff in Hrest. by rewrite Hrest, Hp.
  - simpl in Hn. destruct n; [lia|]. rewrite star_loop_greedy. rewrite Hr.
    simpl in Hcs. apply andb_prop in Hcs as [Hc Hcs].
    change ((c :: cs) ++ rest) with (c :: cs ++ rest). cbn [step]. rewrite Hc.
    replace (length (cs ++ rest) <? length (c :: cs ++ rest))%nat with true
      by (symmetry; apply Nat.ltb_lt; simpl; lia).
    rewrite IH; [reflexivity | done | by apply Hk | lia].
Qed.

Lemma plus_digit k x rest ds prev :
  head_fails is_digit rest = true ->
  is_number ds = true ->
  (forall c, is_digit c = true -> k (Some c) rest = Some x) ->
  rmatch (Plus Digit) prev (ds ++ rest) k = Some x.
Proof.
  intros Hrest Hds Hk. destruct ds as [|d ds]; [discriminate|].
  unfold is_number in Hds. simpl in Hds. apply andb_prop in Hds as [Hd Hds].
  unfold Plus. rewrite rmatch_Seq.
  change ((d :: ds) ++ rest) with (d :: ds ++ rest). cbn [rmatch step]. rewrite Hd.
  apply (greedy_class is_digit Digit k x rest); auto.
Qed.

Lemma head_fails_dotted cls gs rest :
  cls "."%char = false -> head_fails cls rest = true ->
  head_fails cls (dotted gs ++ rest) = true.
Proof. intros Hdot Hrest. destruct gs; simpl; [done | by rewrite Hdot]. Qed.

Lemma dotted_groups k x rest :
  head_fails is_digit rest = true ->
  head_fails (Ascii.eqb ".") rest = true ->
  (forall c, is_digit c = true -> k (Some c) rest = Some x) ->
  forall gs n prev,
    forallb is_number gs = true ->
    k prev rest = Some x ->
    length (dotted gs ++ rest) <= n ->
    star_loop (rmatch (Seq (Lit true ".") (Plus Digit))) true k n prev (dotted gs ++ rest)
      = Some x.
Proof.
  intros Hdigit Hdot Hk gs. induction gs as [|g gs IH]; intros n prev Hgs Hp Hn.
  - change (dotted [] ++ rest) with rest.
    destruct n; [exact Hp|]. rewrite star_loop_greedy.
    rewrite rmatch_Seq. cbn [rmatch].
    destruct rest as [|c rest]; cbn [step orelse]; [exact Hp|].
    rewrite lit_dot. cbn [head_fails] in Hdot. apply negb_true_iff in Hdot.
    rewrite Hdot. exact Hp.
  - simpl in Hgs. apply andb_prop in Hgs as [Hg Hgs].
    change (dotted (g :: gs) ++ rest) with ("."%char :: (g ++ dotted gs) ++ rest) in *.
    rewrite <- app_assoc in *. simpl in Hn. destruct n; [lia|].
    rewrite star_loop_greedy. rewrite rmatch_Seq. cbn [rmatch step].
    change (lit_matches true "." ".") with true. cbn iota.
    rewrite (plus_digit _ x (dotted gs ++ rest) g); [reflexivity | | done |].
    + by apply head_fails_dotted.
    + intros c Hc.
      replace (length (dotted gs ++ rest) <? length ("."%char :: g ++ dotted gs ++ rest))%nat
        with true by (symmetry; apply Nat.ltb_lt; cbn [length]; rewrite !length_app; lia).
      apply IH; [done | by apply Hk |].
      rewrite !length_app in *. lia.
Qed.

Lemma starts_outside_word_heads rest :
  starts_outside_word rest = true ->
  head_fails is_digit rest = true /\ head_fails (Ascii.eqb ".") rest = true /\
  word_after rest = false.
Proof.
  destruct rest as [|c rest]; simpl; [done|].
  intros [Hw Hd]%andb_prop. apply negb_true_iff in Hw.
  split; [by rewrite (no_word_no_digit c Hw)|]. split; [done | exact Hw].
Qed.

(** What follows the keyword of a marker is matched to the end of the
    marker. *)
Lemma version_tail_matches k x prev dot sp ds gs rest :
  (is_nil dot || (length dot =? 1)%nat && forallb (Ascii.eqb ".") dot) = true ->
  forallb is_space sp = true ->
  is_number ds = true ->
  forallb is_number gs = true ->
  starts_outside_word rest = true ->
  (forall p, k p rest = Some x) ->
  rmatch version_tail_re prev (dot ++ sp ++ ds ++ dotted gs ++ rest) k = Some x.
Proof.
  intros Hdot Hsp Hds Hgs Hrest Hk.
  destruct (starts_outside_word_heads rest Hrest) as (Hrd & Hrdot & Hrw).
  assert (Hbound : forall c, is_digit c = true ->
            rmatch Boundary (Some c) rest k = Some x).
  { intros c Hc. cbn [rmatch word_before]. rewrite (digit_is_word c Hc), Hrw.
    apply Hk. }
  assert (Hgroups : forall c, is_digit c = true ->
            rmatch (Seq (Star true (Seq (Lit true ".") (Plus Digit))) Boundary)
              (Some c) (dotted gs ++ rest) k = Some x).
  { intros c Hc. rewrite rmatch_Seq, rmatch_Star.
    apply (dotted_groups _ x rest); auto. }
  assert (Hnumber : forall p,
            rmatch (Seq (Plus Digit)
                      (Seq (Star true (Seq (Lit true ".") (Plus Digit))) Boundary))
              p (ds ++ dotted gs ++ rest) k = Some x).
  { intros p. rewrite rmatch_Seq.
    apply (plus_digit _ x (dotted gs ++ rest) ds); [|done|exact Hgroups].
    by apply head_fails_dotted. }
  assert (Hspaces : forall p,
            rmatch (Seq (Star true Space)
                      (Seq (Plus Digit)
                         (Seq (Star true (Seq (Lit true ".") (Plus Digit))) Boundary)))
              p (sp ++ ds ++ dotted gs ++ rest) k = Some x).
  { intros p. rewrite rmatch_Seq, rmatch_Star.
    apply (greedy_class is_space Space _ x (ds ++ dotted gs ++ rest)); auto.
    destruct ds as [|d ds]; [discriminate|]. simpl.
    unfold is_number in Hds. simpl in Hds. apply andb_prop in Hds as [Hd _].
    by rewrite (digit_is_no_space d Hd). }
  unfold version_tail_re, Opt. rewrite rmatch_Seq, rmatch_Alt, rmatch_Eps, rmatch_Lit.
  destruct dot as [|c dot].
  - change ([] ++ sp ++ ds ++ dotted gs ++ rest) with (sp ++ ds ++ dotted gs ++ rest).
    rewrite Hspaces.
    destruct (step _ _ _) eqn:Hstep; [|reflexivity].
    exfalso. revert Hstep. destruct sp as [|c sp].
    + destruct ds as [|d ds]; [discriminate|].
      unfold is_number in Hds. simpl in Hds. apply andb_prop in Hds as [Hd _].
      change ([] ++ (d :: ds) ++ dotted gs ++ rest)
        with (d :: ds ++ dotted gs ++ rest).
      cbn [step]. by rewrite lit_dot, (digit_is_no_dot d Hd).
    + simpl in Hsp. apply andb_prop in Hsp as [Hc _].
      change ((c :: sp) ++ ds ++ dotted gs ++ rest)
        with (c :: sp ++ ds ++ dotted gs ++ rest).
      cbn [step]. by rewrite lit_dot, (space_is_no_dot c Hc).
  - destruct dot as [|c' dot];
      cbn [is_nil orb length Nat.eqb forallb andb] in Hdot; [|discriminate].
    rewrite andb_true_r in Hdot. apply Ascii.eqb_eq in Hdot as <-.
    change (["."%char] ++ sp ++ ds ++ dotted gs ++ rest)
      with ("."%char :: sp ++ ds ++ dotted gs ++ rest).
    cbn [step]. change (lit_matches true "." ".") with true. cbn iota.
    by rewrite Hspaces.
Qed.

Lemma rmatch_Space prev s k : rmatch Space prev s k = step is_space s k.
Proof. reflexivity. Qed.

Lemma rmatch_Digit prev s k : rmatch Digit prev s k = step is_digit s k.
Proof. reflexivity. Qed.

Lemma rmatch_Boundary prev s k :
  rmatch Boundary prev s k =
    if xorb (word_before prev) (word_after s) then k prev s else None.
Proof. reflexivity. Qed.

Lemma version_tail_fails_on_letter k prev c s :
  Ascii.eqb "." c = false -> is_space c = false -> is_digit c = false ->
  rmatch version_tail_re prev (c :: s) k = None.
Proof.
  intros Hdot Hsp Hd. unfold version_tail_re, Opt, Plus.
  rewrite rmatch_Seq, rmatch_Alt, rmatch_Eps, rmatch_Lit. cbn [step].
  rewrite lit_dot, Hdot. cbn [orelse].
  rewrite rmatch_Seq, rmatch_Star. cbn [length]. rewrite star_loop_greedy.
  rewrite rmatch_Space. cbn [step]. rewrite Hsp. cbn [orelse].
  rewrite !rmatch_Seq, rmatch_Digit. cbn [step]. by rewrite Hd.
Qed.

Lemma keyword_matches k x prev kw s :
  is_keyword kw = true ->
  (forall p, rmatch version_tail_re p s k = Some x) ->
  rmatch (Seq keyword_re version_tail_re) prev (kw ++ s) k = Some x.
Proof.
  intros Hkw Htail. unfold keyword_re.
  change (Word true "v") with (Lit true "v").
  change (Word true "ver")
    with (Seq (Lit true "v") (Seq (Lit true "e") (Lit true "r"))).
  change (Word true "vol")
    with (Seq (Lit true "v") (Seq (Lit true "o") (Lit true "l"))).
  rewrite rmatch_Seq, rmatch_Alt, rmatch_Lit.
  destruct kw as [|a [|b [|c [|d kw]]]]; cbn [is_keyword] in Hkw; try discriminate.
  - change ([a] ++ s) with (a :: s). cbn [step]. by rewrite Hkw, Htail.
  - apply andb_prop in Hkw as [Ha Hkw].
    change ([a; b; c] ++ s) with (a :: b :: c :: s). cbn [step]. rewrite Ha.
    apply orb_prop in Hkw as [[He Hr]%andb_prop | [Ho Hl]%andb_prop].
    + destruct (lit_e_facts b He) as (Hdot & Hsp & Hd).
      rewrite version_tail_fails_on_letter by done. cbn [orelse].
      rewrite rmatch_Alt, !rmatch_Seq, rmatch_Lit. cbn [step]. rewrite Ha.
      rewrite rmatch_Seq, rmatch_Lit. cbn [step]. rewrite He.
      rewrite rmatch_Lit. cbn [step]. by rewrite Hr, Htail.
    + destruct (lit_o_facts b Ho) as (Hdot & Hsp & Hd & He).
      rewrite version_tail_fails_on_letter by done. cbn [orelse].
      rewrite rmatch_Alt, !rmatch_Seq, rmatch_Lit. cbn [step]. rewrite Ha.
      rewrite rmatch_Seq, rmatch_Lit. cbn [step]. rewrite He. cbn [orelse].
      rewrite rmatch_Lit. cbn [step]. rewrite Ha.
      rewrite rmatch_Seq, rmatch_Lit. cbn [step]. rewrite Ho.
      rewrite rmatch_Lit. cbn [step]. by rewrite Hl, Htail.
Qed.

Lemma marker_ok_parts kw dot sp ds gs :
  marker_ok kw dot sp ds gs = true ->
  is_keyword kw = true /\
  (is_nil dot || (length dot =? 1)%nat && forallb (Ascii.eqb ".") dot) = true /\
  forallb is_space sp = true /\ is_number ds = true /\ forallb is_number gs = true.
Proof.
  unfold marker_ok.
  intros [[[[Hkw Hdot]%andb_prop Hsp]%andb_prop Hds]%andb_prop Hgs]%andb_prop.
  done.
Qed.

Lemma keyword_starts_a_word kw s :
  is_keyword kw = true ->
  exists a t, kw ++ s = a :: t /\ is_word a = true.
Proof.
  destruct kw as [|a [|b [|c [|d kw]]]]; cbn [is_keyword]; try discriminate.
  - intros Ha. exists a, s. split; [reflexivity | by apply lit_v_is_word].
  - intros [Ha _]%andb_prop. exists a, (b :: c :: s).
    split; [reflexivity | by apply lit_v_is_word].
Qed.

(** At a word boundary the pattern matches a marker, all of it. *)
Lemma match_at_marker prev kw dot sp ds gs rest :
  marker_ok kw dot sp ds gs = true ->
  word_before prev = false ->
  starts_outside_word rest = true ->
  match_at version_re prev (marker kw dot sp ds gs ++ rest)
    = Some (length (marker kw dot sp ds gs)).
Proof.
  intros (Hkw & Hdot & Hsp & Hds & Hgs)%marker_ok_parts Hprev Hrest.
  unfold match_at, version_re, marker. rewrite <- !app_assoc.
  rewrite rmatch_Seq, rmatch_Boundary, Hprev.
  destruct (keyword_starts_a_word kw (dot ++ sp ++ ds ++ dotted gs ++ rest) Hkw)
    as (a & t & Heq & Ha).
  replace (word_after (kw ++ dot ++ sp ++ ds ++ dotted gs ++ rest)) with true
    by (rewrite Heq; simpl; by rewrite Ha).
  cbn [xorb].
  apply keyword_matches; [done|]. intros p.
  apply version_tail_matches; try done.
  intros _. f_equal. rewrite !length_app. lia.
Qed.

Lemma match_at_needs_v prev c s :
  lit_matches true "v" c = false -> match_at version_re prev (c :: s) = None.
Proof.
  intros Hc. unfold match_at, version_re, keyword_re.
  change (Word true "v") with (Lit true "v").
  change (Word true "ver")
    with (Seq (Lit true "v") (Seq (Lit true "e") (Lit true "r"))).
  change (Word true "vol")
    with (Seq (Lit true "v") (Seq (Lit true "o") (Lit true "l"))).
  rewrite rmatch_Seq, rmatch_Boundary. destruct (xorb _ _); [|reflexivity].
  rewrite rmatch_Seq, !rmatch_Alt, !rmatch_Seq, !rmatch_Lit. cbn [step].
  by rewrite Hc.
Qed.

Lemma sub_go_0 r prev s : sub_go r 0 prev s = s.
Proof. by destruct s. Qed.

Lemma sub_go_free_of_v n prev s :
  free_of_v s = true -> sub_go version_re n prev s = s.
Proof.
  revert prev s; induction n as [|n IH]; intros prev s Hs; [apply sub_go_0|].
  destruct s as [|c s]; [reflexivity|].
  unfold free_of_v in Hs. cbn [forallb] in Hs. apply andb_prop in Hs as [Hc Hs].
  apply negb_true_iff in Hc.
  rewrite sub_go_cons, match_at_needs_v by done. f_equal. by apply IH.
Qed.

Lemma sub_go_before_marker pre n prev tail :
  free_of_v pre = true ->
  sub_go version_re n prev (pre ++ tail) =
    pre ++ sub_go version_re (n - length pre) (from_option Some prev (last pre)) tail.
Proof.
  revert n prev; induction pre as [|c pre IH]; intros n prev Hpre.
  - simpl. by rewrite Nat.sub_0_r.
  - unfold free_of_v in Hpre. cbn [forallb] in Hpre.
    apply andb_prop in Hpre as [Hc Hpre]. apply negb_true_iff in Hc.
    change ((c :: pre) ++ tail) with (c :: pre ++ tail).
    destruct n as [|n].
    + reflexivity.
    + rewrite sub_go_cons, match_at_needs_v by done.
      rewrite IH by done. cbn [length Nat.sub app]. do 3 f_equal.
      destruct pre as [|a pre]; [reflexivity|]. rewrite last_cons_cons.
      destruct (last (a :: pre)) eqn:Hlast; [reflexivity|].
      by apply last_None in Hlast.
Qed.

(** A marker between two texts without the letter v is what the version
    pattern removes, and nothing else. *)
Lemma marker_is_removed pre kw dot sp ds gs rest :
  marker_ok kw dot sp ds gs = true ->
  free_of_v pre = true -> ends_outside_word pre = true ->
  free_of_v rest = true -> starts_outside_word rest = true ->
  sub_chars version_re (pre ++ marker kw dot sp ds gs ++ rest) = pre ++ rest.
Proof.
  intros Hok Hpre Hend Hrest Hstart. unfold sub_chars.
  rewrite sub_go_before_marker by done. f_equal.
  assert (Hprev : word_before (from_option Some None (last pre)) = false).
  { unfold ends_outside_word in Hend. apply negb_true_iff in Hend.
    by destruct (last pre). }
  pose proof (match_at_marker _ kw dot sp ds gs rest Hok Hprev Hstart) as Hm.
  destruct (marker_ok_parts _ _ _ _ _ Hok) as (Hkw & _).
  destruct (keyword_starts_a_word kw (dot ++ sp ++ ds ++ dotted gs) Hkw)
    as (a & t & Heq & _).
  fold (marker kw dot sp ds gs) in Heq.
  rewrite !length_app. rewrite Heq in *.
  replace (length pre + (length (a :: t) + length rest) - length pre)
    with (S (length t + length rest)) by (simpl; lia).
  change ((a :: t) ++ rest) with (a :: t ++ rest) in *.
  rewrite sub_go_cons, Hm. cbn [length].
  change (a :: t ++ rest) with ((a :: t) ++ rest).
  rewrite (drop_app_length' (a :: t) rest) by reflexivity.
  by apply sub_go_free_of_v.
Qed.

Lemma clean_title_drops_marker pre kw dot sp ds gs rest :
  marker_ok kw dot sp ds gs = true ->
  free_of_v pre = true -> ends_outside_word pre = true ->
  free_of_v rest = true -> starts_outside_word rest = true ->
  _clean_title (Some (str (pre ++ marker kw dot sp ds gs ++ rest)))
    = _clean_title (Some (str (pre ++ rest))).
Proof.
  intros Hok Hpre Hend Hrest Hstart.
  assert (Hwith : sub version_re (str (pre ++ marker kw dot sp ds gs ++ rest))
                  = str (pre ++ rest)).
  { unfold sub. by rewrite chars_str, marker_is_removed. }
  assert (Hwithout : sub version_re (str (pre ++ rest)) = str (pre ++ rest)).
  { unfold sub, sub_chars. rewrite chars_str, sub_go_free_of_v; [reflexivity|].
    unfold free_of_v in *. by rewrite forallb_app, Hpre, Hrest. }
  destruct (marker_ok_parts _ _ _ _ _ Hok) as (Hkw & _).
  destruct (keyword_starts_a_word kw (dot ++ sp ++ ds ++ dotted gs) Hkw)
    as (a & t & Heq & _).
  fold (marker kw dot sp ds gs) in Heq.
  assert (Hfull : is_empty (str (pre ++ marker kw dot sp ds gs ++ rest)) = false).
  { rewrite Heq. by destruct pre. }
  unfold _clean_title. rewrite Hfull, Hwith, Hwithout.
  destruct (pre ++ rest) eqn:Hboth; reflexivity.
Qed.

(** *** The version pattern, position by position *)

Lemma orelse_None_r {A} (x : option A) : orelse x None = x.
Proof. by destruct x. Qed.

Lemma orelse_map {A B} (g : A -> B) x y :
  orelse (option_map g x) (option_map g y) = option_map g (orelse x y).
Proof. by destruct x. Qed.

Lemma class_run (cls : ascii -> bool) s :
  exists cs rest, s = cs ++ rest /\ forallb cls cs = true /\ head_fails cls rest = true.
Proof.
  induction s as [|c s (cs & rest & -> & Hcs & Hrest)].
  - by exists [], [].
  - destruct (cls c) eqn:Hc.
    + exists (c :: cs), rest. simpl. by rewrite Hc, Hcs.
    + exists [], (c :: cs ++ rest). simpl. by rewrite Hc.
Qed.

Lemma last_run (prev : option ascii) c cs :
  from_option Some prev (last (c :: cs)) = from_option Some (Some c) (last cs).
Proof.
  destruct cs as [|a cs]; [reflexivity|]. rewrite last_cons_cons.
  destruct (last (a :: cs)) eqn:Hlast; [reflexivity|]. by apply last_None in Hlast.
Qed.

(** A greedy repetition of a class runs to the end of the run when what
    follows cannot start inside the class. *)
Lemma class_loop (cls : ascii -> bool) r (okprev : option ascii -> Prop) k :
  (forall p s k', rmatch r p s k' = step cls s k') ->
  (forall p c s', okprev p -> cls c = true -> k p (c :: s') = None) ->
  (forall c, cls c = true -> okprev (Some c)) ->
  forall cs rest n prev,
    forallb cls cs = true -> head_fails cls rest = true -> okprev prev ->
    length (cs ++ rest) <= n ->
    star_loop (rmatch r) true k n prev (cs ++ rest)
      = k (from_option Some prev (last cs)) rest.
Proof.
  intros Hr Hk Hok cs. induction cs as [|c cs IH]; intros rest n prev Hcs Hrest Hp Hn.
  - simpl. destruct n; [reflexivity|]. rewrite star_loop_greedy, Hr.
    destruct rest as [|c rest]; simpl in *; [reflexivity|].
    apply negb_true_iff in Hrest. by rewrite Hrest.
  - simpl in Hn. destruct n; [lia|]. rewrite star_loop_greedy, Hr.
    simpl in Hcs. apply andb_prop in Hcs as [Hc Hcs].
    change ((c :: cs) ++ rest) with (c :: cs ++ rest). cbn [step]. rewrite Hc.
    replace (length (cs ++ rest) <? length (c :: cs ++ rest))%nat with true
      by (symmetry; apply Nat.ltb_lt; simpl; lia).
    rewrite IH by (auto; lia). rewrite (Hk prev c) by done.
    by rewrite orelse_None_r, last_run.
Qed.

Lemma number_end_digits ds t :
  forallb is_digit ds = true -> number_end (ds ++ t) = number_end t.
Proof.
  induction ds as [|d ds IH]; [done|]. simpl. intros [Hd Hds]%andb_prop.
  rewrite Hd. by apply IH.
Qed.

Lemma last_digit d ds :
  is_digit d = true -> forallb is_digit ds = true ->
  word_before (from_option Some (Some d) (last ds)) = true.
Proof.
  intros Hd Hds. destruct (last ds) as [x|] eqn:Hlast; simpl.
  - apply digit_is_word. apply last_Some in Hlast as [l' ->].
    rewrite forallb_app in Hds. apply andb_prop in Hds as [_ Hx].
    simpl in Hx. by apply andb_prop in Hx as [Hx _].
  - by apply digit_is_word.
Qed.

Lemma groups_loop_digit_head g n p d r :
  is_digit d = true -> word_before p = true ->
  star_loop (rmatch group_re) true (at_boundary g) n p (d :: r) = None.
Proof.
  intros Hd Hp.
  assert (Hk : at_boundary g p (d :: r) = None).
  { unfold at_boundary. rewrite rmatch_Boundary, Hp. simpl.
    by rewrite (digit_is_word d Hd). }
  destruct n; [exact Hk|]. rewrite star_loop_greedy. unfold group_re.
  rewrite rmatch_Seq, rmatch_Lit. cbn [step].
  by rewrite lit_dot, (digit_is_no_dot d Hd), Hk.
Qed.

Lemma groups_loop g n : forall s prev,
  length s <= n -> word_before prev = true -> head_fails is_digit s = true ->
  star_loop (rmatch group_re) true (at_boundary g) n prev s
    = option_map g (number_end s).
Proof.
  induction n as [|n IH]; intros s prev Hn Hp Hs.
  - destruct s; [|simpl in Hn; lia]. simpl. unfold at_boundary.
    by rewrite rmatch_Boundary, Hp.
  - rewrite star_loop_greedy. destruct s as [|c s'].
    + simpl. unfold at_boundary. by rewrite rmatch_Boundary, Hp.
    + cbn [head_fails] in Hs. apply negb_true_iff in Hs.
      unfold group_re at 1. rewrite rmatch_Seq, rmatch_Lit. cbn [step].
      rewrite lit_dot. cbn [number_end]. rewrite Hs.
      destruct (Ascii.eqb "." c) eqn:Hdot.
      * apply Ascii.eqb_eq in Hdot as <-.
        assert (Hk : at_boundary g prev ("."%char :: s') = Some (g ("."%char :: s'))).
        { unfold at_boundary. by rewrite rmatch_Boundary, Hp. }
        rewrite Hk. unfold Plus. rewrite rmatch_Seq, rmatch_Digit.
        destruct s' as [|d s2]; cbn [step]; [reflexivity|].
        destruct (is_digit d) eqn:Hd; [|reflexivity].
        rewrite rmatch_Star.
        destruct (class_run is_digit s2) as (ds & t & -> & Hds & Ht).
        rewrite (class_loop is_digit Digit (fun p => word_before p = true)).
        -- replace (length t <? length ("."%char :: d :: ds ++ t))%nat with true
             by (symmetry; apply Nat.ltb_lt; simpl; rewrite length_app; lia).
           rewrite IH.
           ++ replace (number_end (d :: ds ++ t)) with (number_end t)
                by (symmetry; apply (number_end_digits (d :: ds) t); simpl;
                    by rewrite Hd).
              apply (orelse_map g (number_end t) (Some ("."%char :: d :: ds ++ t))).
           ++ simpl in Hn. rewrite length_app in Hn. lia.
           ++ by apply last_digit.
           ++ done.
        -- reflexivity.
        -- intros p c s' Hp' Hc.
           destruct (_ <? _)%nat; [|reflexivity]. by apply groups_loop_digit_head.
        -- apply digit_is_word.
        -- done.
        -- done.
        -- simpl. by rewrite (digit_is_word d Hd).
        -- lia.
      * cbn [orelse]. unfold at_boundary. rewrite rmatch_Boundary, Hp. simpl.
        by destruct (is_word c).
Qed.

Lemma groups_then_boundary g p s :
  rmatch (Seq (Star true group_re) Boundary) p s (fun _ r => Some (g r))
    = star_loop (rmatch group_re) true (at_boundary g) (length s) p s.
Proof. reflexivity. Qed.

Lemma number_matches g p t :
  rmatch number_re p t (fun _ r => Some (g r)) =
    option_map g
      match t with
      | d :: s' => if is_digit d then number_end s' else None
      | [] => None
      end.
Proof.
  unfold number_re, Plus. rewrite !rmatch_Seq, rmatch_Digit.
  destruct t as [|d s']; cbn [step]; [reflexivity|].
  destruct (is_digit d) eqn:Hd; [|reflexivity].
  rewrite rmatch_Star.
  destruct (class_run is_digit s') as (ds & u & -> & Hds & Hu).
  rewrite (class_loop is_digit Digit (fun p => word_before p = true)).
  - cbv beta. rewrite groups_then_boundary, groups_loop, number_end_digits; try done.
    by apply last_digit.
  - reflexivity.
  - intros p' c s' Hp' Hc. rewrite groups_then_boundary.
    by apply groups_loop_digit_head.
  - apply digit_is_word.
  - done.
  - done.
  - simpl. by rewrite (digit_is_word d Hd).
  - lia.
Qed.

Lemma space_is_no_digit c : is_space c = true -> is_digit c = false.
Proof.
  intros Hc. destruct (is_digit c) eqn:Hd; [|done].
  by rewrite (digit_is_no_space c Hd) in Hc.
Qed.

Lemma lstrip_run sp t :
  forallb is_space sp = true -> head_fails is_space t = true ->
  lstrip_chars (sp ++ t) = t.
Proof.
  intros Hsp Ht. induction sp as [|c sp IH]; cbn [app lstrip_chars forallb] in *.
  - destruct t as [|c t]; [done|]. cbn [head_fails lstrip_chars] in *.
    apply negb_true_iff in Ht. by rewrite Ht.
  - apply andb_prop in Hsp as [Hc Hsp]. rewrite Hc. by apply IH.
Qed.

Lemma spaces_matches g p s :
  rmatch (Seq (Star true Space) number_re) p s (fun _ r => Some (g r))
    = option_map g (spaces_then_number s).
Proof.
  rewrite rmatch_Seq, rmatch_Star.
  destruct (class_run is_space s) as (sp & t & -> & Hsp & Ht).
  rewrite (class_loop is_space Space (fun _ => True)); try done.
  - rewrite number_matches. unfold spaces_then_number. by rewrite lstrip_run.
  - intros p' c s' _ Hc. rewrite number_matches.
    by rewrite (space_is_no_digit c Hc).
Qed.

Lemma tail_matches g p s :
  rmatch version_tail_re p s (fun _ r => Some (g r)) = option_map g (tail_end s).
Proof.
  unfold version_tail_re, Opt. rewrite rmatch_Seq, rmatch_Alt, rmatch_Eps, rmatch_Lit.
  change (fun p' s' => rmatch _ p' s' (fun _ r => Some (g r)))
    with (fun p' s' => rmatch (Seq (Star true Space) number_re) p' s'
                         (fun _ r => Some (g r))).
  destruct s as [|c t]; cbn [step tail_end].
  - by rewrite spaces_matches.
  - rewrite lit_dot. destruct (Ascii.eqb "." c) eqn:Hdot.
    + apply Ascii.eqb_eq in Hdot as <-. rewrite !spaces_matches.
      change (spaces_then_number ("."%char :: t)) with (@None (list ascii)).
      apply orelse_None_r.
    + by rewrite spaces_matches.
Qed.

Lemma marker_matches g p s :
  rmatch (Seq keyword_re version_tail_re) p s (fun _ r => Some (g r))
    = option_map g (marker_end s).
Proof.
  unfold keyword_re.
  change (Word true "v") with (Lit true "v").
  change (Word true "ver")
    with (Seq (Lit true "v") (Seq (Lit true "e") (Lit true "r"))).
  change (Word true "vol")
    with (Seq (Lit true "v") (Seq (Lit true "o") (Lit true "l"))).
  rewrite rmatch_Seq, !rmatch_Alt, !rmatch_Seq, !rmatch_Lit.
  destruct s as [|a s1]; cbn [step orelse marker_end]; [reflexivity|].
  destruct (lit_matches true "v" a); cbn [orelse option_map]; [|reflexivity].
  rewrite tail_matches, <- orelse_map. f_equal.
  rewrite !rmatch_Seq, !rmatch_Lit.
  destruct s1 as [|b [|c s3]]; cbn [step orelse option_map]; [reflexivity| |].
  - by destruct (lit_matches true "e" b), (lit_matches true "o" b).
  - rewrite !rmatch_Lit. cbn [step].
    destruct (lit_matches true "e" b) eqn:He, (lit_matches true "o" b) eqn:Ho;
      cbn [andb orb orelse].
    + destruct (lit_o_facts b Ho) as (_ & _ & _ & Hne). congruence.
    + destruct (lit_matches true "r" c); cbn [orelse option_map];
        rewrite ?tail_matches; by rewrite ?orelse_None_r.
    + destruct (lit_matches true "l" c); cbn [orelse option_map];
        by rewrite ?tail_matches.
    + reflexivity.
Qed.

(** The version pattern, at one position, by the direct scan. *)
Lemma match_at_version prev s :
  match_at version_re prev s =
    if xorb (word_before prev) (word_after s)
    then option_map (fun r => length s - length r) (marker_end s)
    else None.
Proof.
  unfold match_at, version_re. rewrite rmatch_Seq, rmatch_Boundary.
  destruct (xorb _ _); [|reflexivity].
  apply (marker_matches (fun r => length s - length r)).
Qed.

(** *** What the direct scan finds is a marker *)

Lemma dotted_cons g gs : dotted (g :: gs) = "."%char :: g ++ dotted gs.
Proof. reflexivity. Qed.

Lemma number_end_sound s : forall r,
  number_end s = Some r ->
  exists ds gs,
    forallb is_digit ds = true /\ forallb is_number gs = true /\
    s = ds ++ dotted gs ++ r /\ head_fails is_word r = true.
Proof.
  induction s as [|c s IH]; intros r; cbn [number_end].
  - intros [= <-]. by exists [], [].
  - destruct (is_digit c) eqn:Hc.
    + intros (ds & gs & Hds & Hgs & -> & Hr)%IH. exists (c :: ds), gs.
      simpl. by rewrite Hc, Hds.
    + assert (Hself : is_word c = false ->
                exists ds gs,
                  forallb is_digit ds = true /\ forallb is_number gs = true /\
                  c :: s = ds ++ dotted gs ++ c :: s /\
                  head_fails is_word (c :: s) = true).
      { intros Hw. exists [], []. simpl. by rewrite Hw. }
      destruct (Ascii.eqb "." c) eqn:Hdot.
      * apply Ascii.eqb_eq in Hdot as <-.
        destruct s as [|d s2]; [intros [= <-]; by apply Hself|].
        destruct (is_digit d) eqn:Hd; [|intros [= <-]; by apply Hself].
        destruct (number_end (d :: s2)) as [r'|] eqn:Hn; cbn [orelse];
          [|intros [= <-]; by apply Hself].
        intros [= <-]. destruct (IH r' eq_refl) as (ds & gs & Hds & Hgs & Heq & Hr).
        destruct ds as [|d' ds].
        -- exfalso. destruct gs as [|g gs]; simpl in Heq.
           ++ subst r'. simpl in Hr. by rewrite (digit_is_word d Hd) in Hr.
           ++ injection Heq as -> _. discriminate Hd.
        -- exists [], ((d' :: ds) :: gs). split; [done|]. split.
           ++ cbn [forallb]. by rewrite Hgs, andb_true_r.
           ++ split; [|done]. rewrite Heq, dotted_cons. simpl.
              by rewrite <- app_assoc.
      * destruct (is_word c) eqn:Hw; [discriminate|]. intros [= <-]. by apply Hself.
Qed.

Lemma spaces_then_number_sound t r :
  spaces_then_number t = Some r ->
  exists sp ds gs,
    forallb is_space sp = true /\ is_number ds = true /\ forallb is_number gs = true /\
    t = sp ++ ds ++ dotted gs ++ r /\ head_fails is_word r = true.
Proof.
  unfold spaces_then_number.
  destruct (class_run is_space t) as (sp & u & -> & Hsp & Hu).
  rewrite lstrip_run by done. destruct u as [|d u]; [discriminate|].
  destruct (is_digit d) eqn:Hd; [|discriminate].
  intros (ds & gs & Hds & Hgs & -> & Hr)%number_end_sound.
  exists sp, (d :: ds), gs. repeat split; try done.
  unfold is_number. simpl. by rewrite Hd, Hds.
Qed.

Lemma tail_end_sound s r :
  tail_end s = Some r ->
  exists dot sp ds gs,
    (is_nil dot || (length dot =? 1)%nat && forallb (Ascii.eqb ".") dot) = true /\
    forallb is_space sp = true /\ is_number ds = true /\ forallb is_number gs = true /\
    s = dot ++ sp ++ ds ++ dotted gs ++ r /\ head_fails is_word r = true.
Proof.
  destruct s as [|c s']; cbn [tail_end]; [discriminate|].
  destruct (Ascii.eqb "." c) eqn:Hdot.
  - apply Ascii.eqb_eq in Hdot as <-.
    intros (sp & ds & gs & Hsp & Hds & Hgs & -> & Hr)%spaces_then_number_sound.
    by exists ["."%char], sp, ds, gs.
  - intros (sp & ds & gs & Hsp & Hds & Hgs & Heq & Hr)%spaces_then_number_sound.
    by exists [], sp, ds, gs.
Qed.

Lemma marker_end_sound s r :
  marker_end s = Some r ->
  exists kw dot sp ds gs,
    marker_ok kw dot sp ds gs = true /\
    s = marker kw dot sp ds gs ++ r /\ head_fails is_word r = true.
Proof.
  assert (Hparts : forall kw t,
            is_keyword kw = true -> tail_end t = Some r ->
            exists dot sp ds gs,
              marker_ok kw dot sp ds gs = true /\
              kw ++ t = marker kw dot sp ds gs ++ r /\ head_fails is_word r = true).
  { intros kw t Hkw (dot & sp & ds & gs & Hdot & Hsp & Hds & Hgs & -> & Hr)%tail_end_sound.
    exists dot, sp, ds, gs. split; [|split; [|done]].
    - unfold marker_ok. by rewrite Hkw, Hdot, Hsp, Hds, Hgs.
    - unfold marker. by rewrite <- !app_assoc. }
  destruct s as [|a s1]; cbn [marker_end]; [discriminate|].
  destruct (lit_matches true "v" a) eqn:Ha; [|discriminate].
  destruct (tail_end s1) as [r1|] eqn:Ht; cbn [orelse].
  - intros [= <-].
    destruct (Hparts [a] s1) as (dot & sp & ds & gs & Hok & Heq & Hr); try done.
    exists [a], dot, sp, ds, gs. split; [done|]. split; [exact Heq | done].
  - destruct s1 as [|b [|c s3]]; try discriminate.
    destruct (_ || _) eqn:Hcond; [|discriminate]. intros Ht3.
    destruct (Hparts [a; b; c] s3) as (dot & sp & ds & gs & Hok & Heq & Hr);
      try done.
    + cbn [is_keyword]. by rewrite Ha, Hcond.
    + exists [a; b; c], dot, sp, ds, gs. split; [done|]. split; [exact Heq | done].
Qed.

(** *** A marker is what the direct scan finds *)

Lemma spaces_then_number_marker sp ds t :
  forallb is_space sp = true -> is_number ds = true ->
  spaces_then_number (sp ++ ds ++ t) = number_end t.
Proof.
  intros Hsp Hds. destruct ds as [|d ds]; [discriminate|].
  unfold is_number in Hds. cbn [is_nil negb andb forallb] in Hds.
  apply andb_prop in Hds as [Hd Hds].
  unfold spaces_then_number. rewrite lstrip_run; [| done |].
  - change ((d :: ds) ++ t) with (d :: ds ++ t). cbv iota beta.
    by rewrite Hd, number_end_digits.
  - simpl. by rewrite (digit_is_no_space d Hd).
Qed.

Lemma tail_end_marker dot sp ds t :
  (is_nil dot || (length dot =? 1)%nat && forallb (Ascii.eqb ".") dot) = true ->
  forallb is_space sp = true -> is_number ds = true ->
  tail_end (dot ++ sp ++ ds ++ t) = number_end t.
Proof.
  intros Hdot Hsp Hds. destruct dot as [|c dot].
  - rewrite <- (spaces_then_number_marker sp ds t) by done.
    change ([] ++ sp ++ ds ++ t) with (sp ++ ds ++ t).
    destruct (sp ++ ds ++ t) as [|x u] eqn:Heq; [reflexivity|]. cbn [tail_end].
    replace (Ascii.eqb "." x) with false; [reflexivity|]. symmetry.
    destruct sp as [|y sp].
    + destruct ds as [|d ds]; [discriminate|]. injection Heq as <- _.
      unfold is_number in Hds. cbn [is_nil negb andb forallb] in Hds.
      apply andb_prop in Hds as [Hd _]. by apply digit_is_no_dot.
    + injection Heq as <- _. cbn [forallb] in Hsp.
      apply andb_prop in Hsp as [Hy _]. by apply space_is_no_dot.
  - destruct dot as [|c' dot];
      cbn [is_nil orb length Nat.eqb forallb andb] in Hdot; [|discriminate].
    rewrite andb_true_r in Hdot.
    change ([c] ++ sp ++ ds ++ t) with (c :: sp ++ ds ++ t). cbn [tail_end].
    rewrite Hdot. by apply spaces_then_number_marker.
Qed.

Lemma tail_end_letter c t :
  Ascii.eqb "." c = false -> is_space c = false -> is_digit c = false ->
  tail_end (c :: t) = None.
Proof.
  intros Hdot Hsp Hd. cbn [tail_end]. rewrite Hdot.
  unfold spaces_then_number. cbn [lstrip_chars]. by rewrite Hsp, Hd.
Qed.

Lemma marker_end_marker kw dot sp ds gs rest r :
  marker_ok kw dot sp ds gs = true ->
  number_end (dotted gs ++ rest) = Some r ->
  marker_end (marker kw dot sp ds gs ++ rest) = Some r.
Proof.
  intros (Hkw & Hdot & Hsp & Hds & Hgs)%marker_ok_parts Hnum.
  unfold marker. rewrite <- !app_assoc.
  pose proof (tail_end_marker dot sp ds (dotted gs ++ rest) Hdot Hsp Hds) as Htail.
  rewrite Hnum in Htail.
  destruct kw as [|a [|b [|c [|d kw]]]]; cbn [is_keyword] in Hkw; try discriminate.
  - change ([a] ++ dot ++ sp ++ ds ++ dotted gs ++ rest)
      with (a :: dot ++ sp ++ ds ++ dotted gs ++ rest).
    cbn [marker_end]. by rewrite Hkw, Htail.
  - apply andb_prop in Hkw as [Ha Hkw].
    change ([a; b; c] ++ dot ++ sp ++ ds ++ dotted gs ++ rest)
      with (a :: b :: c :: dot ++ sp ++ ds ++ dotted gs ++ rest).
    cbn [marker_end]. rewrite Ha, Hkw, Htail.
    assert (Hb : tail_end (b :: c :: dot ++ sp ++ ds ++ dotted gs ++ rest) = None).
    { apply orb_prop in Hkw as [[He _]%andb_prop | [Ho _]%andb_prop].
      - destruct (lit_e_facts b He) as (? & ? & ?). by apply tail_end_letter.
      - destruct (lit_o_facts b Ho) as (? & ? & ? & _). by apply tail_end_letter. }
    by rewrite Hb.
Qed.

Lemma number_end_cons c t :
  number_end (c :: t) =
    if is_digit c then number_end t
    else if Ascii.eqb "." c then
      match t with
      | d :: _ => if is_digit d then orelse (number_end t) (Some (c :: t)) else Some (c :: t)
      | [] => Some (c :: t)
      end
    else if is_word c then None else Some (c :: t).
Proof. reflexivity. Qed.

Lemma number_end_group d t :
  is_digit d = true ->
  number_end ("."%char :: d :: t)
    = orelse (number_end (d :: t)) (Some ("."%char :: d :: t)).
Proof.
  intros Hd.
  change (number_end ("."%char :: d :: t))
    with (if is_digit d
          then orelse (number_end (d :: t)) (Some ("."%char :: d :: t))
          else Some ("."%char :: d :: t)).
  by rewrite Hd.
Qed.

Lemma number_end_groups gs rest :
  forallb is_number gs = true -> ends_the_number rest = true ->
  number_end (dotted gs ++ rest) = Some rest.
Proof.
  intros Hgs Hrest. induction gs as [|g gs IH].
  - change (dotted [] ++ rest) with rest.
    destruct rest as [|c t]; [reflexivity|]. cbn [ends_the_number] in Hrest.
    apply andb_prop in Hrest as [Hw Hgo]. apply negb_true_iff in Hw.
    cbn [number_end]. rewrite (no_word_no_digit c Hw), Hw.
    destruct (Ascii.eqb "." c); [|reflexivity]. cbn [negb orb] in Hgo.
    destruct t as [|d t]; [reflexivity|]. cbn [head_fails] in Hgo.
    apply negb_true_iff in Hgo. by rewrite Hgo.
  - cbn [forallb] in Hgs. apply andb_prop in Hgs as [Hg Hgs].
    destruct g as [|d g]; [discriminate|].
    unfold is_number in Hg. cbn [is_nil negb andb forallb] in Hg.
    apply andb_prop in Hg as [Hd Hg].
    rewrite dotted_cons. cbn [app]. rewrite <- app_assoc.
    rewrite number_end_group by done.
    replace (number_end (d :: g ++ dotted gs ++ rest)) with (Some rest); [reflexivity|].
    rewrite <- IH by done. symmetry.
    apply (number_end_digits (d :: g)). cbn [forallb]. by rewrite Hd.
Qed.

(** Behind a marker that a character outside words follows the scan
    finds an end, if not always that of the whole marker. *)
Lemma number_end_some gs rest :
  forallb is_number gs = true -> head_fails is_word rest = true ->
  is_Some (number_end (dotted gs ++ rest)).
Proof.
  intros Hgs Hrest. destruct gs as [|g gs].
  - change (dotted [] ++ rest) with rest.
    destruct rest as [|c t]; [by eexists|]. cbn [head_fails] in Hrest.
    apply negb_true_iff in Hrest.
    cbn [number_end]. rewrite (no_word_no_digit c Hrest), Hrest.
    destruct (Ascii.eqb "." c); [|by eexists].
    destruct t as [|d t]; [by eexists|].
    destruct (is_digit d); [|by eexists].
    destruct (number_end (d :: t)); by eexists.
  - cbn [forallb] in Hgs. apply andb_prop in Hgs as [Hg Hgs].
    destruct g as [|d g]; [discriminate|].
    unfold is_number in Hg. cbn [is_nil negb andb forallb] in Hg.
    apply andb_prop in Hg as [Hd Hg].
    rewrite dotted_cons. cbn [app]. rewrite <- app_assoc.
    rewrite number_end_group by done.
    destruct (number_end (d :: g ++ dotted gs ++ rest)); by eexists.
Qed.

(** *** What follows a text that ends outside a word plays no part *)

Lemma word_is_no_space c : is_word c = true -> is_space c = false.
Proof. by_char c. Qed.

Lemma word_is_no_dot c : is_word c = true -> Ascii.eqb "." c = false.
Proof. by_char c. Qed.

Lemma lit_e_is_word c : lit_matches true "e" c = true -> is_word c = true.
Proof. by_char c. Qed.

Lemma lit_o_is_word c : lit_matches true "o" c = true -> is_word c = true.
Proof. by_char c. Qed.

Lemma ends_outside_word_tail c y :
  ends_outside_word (c :: y) = true -> ends_outside_word y = true.
Proof.
  destruct y as [|a y]; [done|]. unfold ends_outside_word. by rewrite last_cons_cons.
Qed.

Lemma ends_outside_word_one c : ends_outside_word [c] = true -> is_word c = false.
Proof. unfold ends_outside_word. simpl. by intros ?%negb_true_iff. Qed.

Lemma ends_outside_word_app x y :
  y <> [] -> ends_outside_word (x ++ y) = ends_outside_word y.
Proof.
  intros Hy. unfold ends_outside_word. f_equal. f_equal.
  induction x as [|a x IH]; [done|]. simpl.
  destruct (x ++ y) eqn:Heq; [|exact IH].
  by apply app_eq_nil in Heq as [_ ?].
Qed.

Lemma number_end_local h s' y :
  is_word h = true -> is_digit h = false ->
  y <> [] -> ends_outside_word y = true ->
  number_end (y ++ h :: s') = option_map (fun r => r ++ h :: s') (number_end y).
Proof.
  intros Hword Hdigit. induction y as [|c y IH]; [done|]. intros _ Hend.
  destruct y as [|c2 y].
  - apply ends_outside_word_one in Hend.
    change ([c] ++ h :: s') with (c :: h :: s'). cbn [number_end].
    rewrite (no_word_no_digit c Hend), Hend, Hdigit.
    by destruct (Ascii.eqb "." c).
  - specialize (IH ltac:(done) (ends_outside_word_tail _ _ Hend)).
    rewrite (number_end_cons c (c2 :: y)).
    change ((c :: c2 :: y) ++ h :: s') with (c :: (c2 :: y) ++ h :: s').
    rewrite (number_end_cons c ((c2 :: y) ++ h :: s')), IH.
    destruct (is_digit c); [reflexivity|].
    destruct (Ascii.eqb "." c); [|by destruct (is_word c)].
    cbn [app]. destruct (is_digit c2); [|reflexivity].
    exact (orelse_map (fun r => r ++ h :: s') (number_end (c2 :: y))
             (Some (c :: c2 :: y))).
Qed.

Lemma spaces_then_number_local h s' y :
  is_word h = true -> is_digit h = false ->
  ends_outside_word y = true ->
  spaces_then_number (y ++ h :: s')
    = option_map (fun r => r ++ h :: s') (spaces_then_number y).
Proof.
  intros Hword Hdigit Hend. unfold spaces_then_number.
  destruct (class_run is_space y) as (sp & u & -> & Hsp & Hu).
  rewrite <- app_assoc. destruct u as [|d u].
  - rewrite !lstrip_run; try done.
    + simpl. by rewrite Hdigit.
    + simpl. by rewrite (word_is_no_space h Hword).
  - rewrite !lstrip_run; try done.
    change ((d :: u) ++ h :: s') with (d :: u ++ h :: s'). cbv iota beta.
    destruct (is_digit d) eqn:Hd; [|reflexivity].
    rewrite ends_outside_word_app in Hend by done.
    destruct u as [|c u].
    + apply ends_outside_word_one in Hend. by rewrite (digit_is_word d Hd) in Hend.
    + apply number_end_local; [done | done | done |].
      by apply ends_outside_word_tail in Hend.
Qed.

Lemma tail_end_local h s' y :
  is_word h = true -> is_digit h = false ->
  ends_outside_word y = true ->
  tail_end (y ++ h :: s') = option_map (fun r => r ++ h :: s') (tail_end y).
Proof.
  intros Hword Hdigit Hend. destruct y as [|c y].
  - change ([] ++ h :: s') with (h :: s'). cbn [tail_end].
    rewrite (word_is_no_dot h Hword).
    by apply (spaces_then_number_local h s' []).
  - change ((c :: y) ++ h :: s') with (c :: y ++ h :: s'). cbn [tail_end].
    destruct (Ascii.eqb "." c).
    + apply spaces_then_number_local; [done | done |].
      by apply ends_outside_word_tail in Hend.
    + by apply (spaces_then_number_local h s' (c :: y)).
Qed.

(** A marker that starts in a text ending outside a word ends in it:
    what follows the text plays no part. *)
Lemma marker_end_local h s' x :
  is_word h = true -> is_digit h = false ->
  x <> [] -> ends_outside_word x = true ->
  marker_end (x ++ h :: s') = option_map (fun r => r ++ h :: s') (marker_end x).
Proof.
  intros Hword Hdigit Hx Hend. destruct x as [|a x1]; [done|].
  change ((a :: x1) ++ h :: s') with (a :: x1 ++ h :: s'). cbn [marker_end].
  destruct (lit_matches true "v" a) eqn:Ha; [|reflexivity].
  pose proof (ends_outside_word_tail _ _ Hend) as Hend1.
  rewrite <- orelse_map, tail_end_local by done. f_equal.
  destruct x1 as [|b x2].
  - apply ends_outside_word_one in Hend. by rewrite (lit_v_is_word a Ha) in Hend.
  - pose proof (ends_outside_word_tail _ _ Hend1) as Hend2.
    destruct x2 as [|c x3].
    + apply ends_outside_word_one in Hend1.
      change ([b] ++ h :: s') with (b :: h :: s'). cbv iota beta.
      replace (lit_matches true "e" b) with false
        by (destruct (lit_matches true "e" b) eqn:He; [|done];
            by rewrite (lit_e_is_word b He) in Hend1).
      replace (lit_matches true "o" b) with false
        by (destruct (lit_matches true "o" b) eqn:Ho; [|done];
            by rewrite (lit_o_is_word b Ho) in Hend1).
      reflexivity.
    + change ((b :: c :: x3) ++ h :: s') with (b :: c :: x3 ++ h :: s'). cbv iota beta.
      destruct (_ || _); [|reflexivity].
      apply tail_end_local; [done | done |]. by apply ends_outside_word_tail in Hend2.
Qed.

(** *** The first pass around a marker *)

Lemma sub_go_fuel r n : forall n' prev s,
  length s <= n -> length s <= n' -> sub_go r n prev s = sub_go r n' prev s.
Proof.
  induction n as [|n IH]; intros n' prev s Hn Hn'.
  - destruct s; [|simpl in Hn; lia]. by destruct n'.
  - destruct n' as [|n']; [destruct s; [done | simpl in Hn'; lia]|].
    destruct s as [|c s]; [done|]. simpl in Hn, Hn'. rewrite !sub_go_cons.
    destruct (match_at r prev (c :: s)) as [[|m]|].
    + f_equal. apply IH; lia.
    + apply IH; rewrite length_drop; simpl; lia.
    + f_equal. apply IH; lia.
Qed.

Lemma marker_end_head s rest :
  marker_end s = Some rest ->
  exists a t, s = a :: t /\ lit_matches true "v" a = true.
Proof.
  destruct s as [|a t]; [discriminate|]. cbn [marker_end].
  destruct (lit_matches true "v" a) eqn:Ha; [|discriminate]. by exists a, t.
Qed.

Lemma marker_end_split s rest :
  marker_end s = Some rest ->
  exists a m, s = (a :: m) ++ rest /\ lit_matches true "v" a = true /\
              head_fails is_word rest = true.
Proof.
  intros Hm. destruct (marker_end_head _ _ Hm) as (a & t & -> & Ha).
  destruct (marker_end_sound _ _ Hm) as (kw & dot & sp & ds & gs & Hok & Heq & Hr).
  destruct (marker_ok_parts _ _ _ _ _ Hok) as (Hkw & _).
  destruct (keyword_starts_a_word kw (dot ++ sp ++ ds ++ dotted gs) Hkw)
    as (x & m & Hx & _).
  fold (marker kw dot sp ds gs) in Hx. rewrite Hx in Heq.
  injection Heq as <- ->. by exists a, m.
Qed.

Lemma lit_v_is_no_digit c : lit_matches true "v" c = true -> is_digit c = false.
Proof. by_char c. Qed.

Lemma marker_end_not_word c s : is_word c = false -> marker_end (c :: s) = None.
Proof.
  intros Hc. cbn [marker_end].
  destruct (lit_matches true "v" c) eqn:Hv; [|done].
  by rewrite (lit_v_is_word c Hv) in Hc.
Qed.

Lemma sub_go_version_head n prev prev' s :
  head_fails is_word s = true ->
  sub_go version_re n prev s = sub_go version_re n prev' s.
Proof.
  intros Hs. destruct n; [by rewrite !sub_go_0|]. destruct s as [|c s]; [done|].
  cbn [head_fails] in Hs. apply negb_true_iff in Hs.
  rewrite !sub_go_cons, !match_at_version, (marker_end_not_word c s Hs).
  by destruct (xorb _ _), (xorb _ _).
Qed.

Lemma sub_go_marker_here n prev s rest :
  marker_end s = Some rest -> word_before prev = false -> length s <= n ->
  sub_go version_re n prev s = sub_chars version_re rest.
Proof.
  intros Hm Hp Hn. destruct (marker_end_split _ _ Hm) as (a & m & -> & Ha & Hrest).
  destruct n; [simpl in Hn; lia|].
  change ((a :: m) ++ rest) with (a :: m ++ rest) in *.
  rewrite sub_go_cons, match_at_version, Hp, Hm. cbn [word_after].
  rewrite (lit_v_is_word a Ha). cbn [xorb option_map].
  replace (length (a :: m ++ rest) - length rest) with (S (length m))
    by (simpl; rewrite length_app; lia).
  change (a :: m ++ rest) with ((a :: m) ++ rest).
  rewrite (drop_app_length' (a :: m) rest) by reflexivity.
  unfold sub_chars. rewrite (sub_go_version_head _ _ None) by done.
  apply sub_go_fuel; [|done]. simpl in Hn. rewrite length_app in Hn. lia.
Qed.

Lemma last_app_from {A} (m r : list A) :
  last (m ++ r) = from_option Some (last m) (last r).
Proof. rewrite last_app. by destruct (last r). Qed.

Lemma sub_go_before s rest :
  marker_end s = Some rest ->
  forall n pre prev,
    word_before (from_option Some prev (last pre)) = false ->
    length (pre ++ s) <= n ->
    sub_go version_re n prev (pre ++ s)
      = sub_go version_re (length pre) prev pre ++ sub_chars version_re rest.
Proof.
  intros Hm. destruct (marker_end_head _ _ Hm) as (h & t & -> & Hh).
  pose proof (lit_v_is_word h Hh) as Hword.
  pose proof (lit_v_is_no_digit h Hh) as Hdigit.
  induction n as [|n IH]; intros pre prev Hp Hn.
  - rewrite length_app in Hn. simpl in Hn. lia.
  - destruct pre as [|c pre].
    + by apply sub_go_marker_here.
    + assert (Hend : ends_outside_word (c :: pre) = true).
      { unfold ends_outside_word. destruct (last (c :: pre)) as [x|] eqn:Hl.
        - cbn [from_option] in Hp. by rewrite Hp.
        - by apply last_None in Hl. }
      rewrite last_run in Hp.
      change ((c :: pre) ++ h :: t) with (c :: pre ++ h :: t). cbn [length].
      rewrite !sub_go_cons, !match_at_version. cbn [word_after].
      change (marker_end (c :: pre ++ h :: t))
        with (marker_end ((c :: pre) ++ h :: t)).
      rewrite (marker_end_local h t (c :: pre)) by done.
      simpl in Hn.
      assert (Hstep : c :: sub_go version_re n (Some c) (pre ++ h :: t)
                = c :: sub_go version_re (length pre) (Some c) pre
                    ++ sub_chars version_re rest).
      { change (c :: sub_go version_re (length pre) (Some c) pre
                  ++ sub_chars version_re rest)
          with (c :: (sub_go version_re (length pre) (Some c) pre
                  ++ sub_chars version_re rest)).
        f_equal. apply IH; [done | lia]. }
      destruct (xorb _ _); [|exact Hstep].
      destruct (marker_end (c :: pre)) as [r|] eqn:Hm'; [|exact Hstep].
      cbn [option_map].
      destruct (marker_end_split _ _ Hm') as (a & m & Heq & _ & _).
      injection Heq as <- Heq.
      assert (Hlen : length pre = length m + length r).
      { by rewrite Heq, length_app. }
      replace (length (c :: pre ++ h :: t) - length (r ++ h :: t)) with (S (length m))
        by (simpl; rewrite !length_app; simpl; lia).
      replace (length (c :: pre) - length r) with (S (length m)) by (simpl; lia).
      cbv iota beta. rewrite Heq.
      change (c :: (m ++ r) ++ h :: t) with (((c :: m) ++ r) ++ h :: t).
      change (c :: m ++ r) with ((c :: m) ++ r).
      rewrite <- (app_assoc (c :: m) r (h :: t)).
      rewrite !(drop_app_length' (c :: m)) by reflexivity.
      rewrite !(take_app_length' (c :: m)) by reflexivity.
      rewrite IH.
      * f_equal. apply sub_go_fuel; rewrite ?length_app; lia.
      * rewrite <- last_app_from.
        unfold ends_outside_word in Hend. apply negb_true_iff in Hend.
        by rewrite Heq in Hend.
      * rewrite length_app in *. simpl in *. lia.
Qed.

(** A marker between a word boundary and a character that does not go on
    with it is taken out, and what stands before and after it is cleaned
    as if it stood alone. *)
Lemma marker_is_taken_out pre kw dot sp ds gs rest :
  marker_ok kw dot sp ds gs = true ->
  ends_outside_word pre = true -> ends_the_number rest = true ->
  sub_chars version_re (pre ++ marker kw dot sp ds gs ++ rest)
    = sub_chars version_re pre ++ sub_chars version_re rest.
Proof.
  intros Hok Hpre Hrest. unfold sub_chars at 1 2.
  apply sub_go_before; [| |done].
  - apply marker_end_marker; [done|]. apply number_end_groups; [|done].
    by destruct (marker_ok_parts _ _ _ _ _ Hok) as (_ & _ & _ & _ & Hgs).
  - unfold ends_outside_word in Hpre. apply negb_true_iff in Hpre.
    by destruct (last pre).
Qed.

Lemma sub_go_no_marker n : forall a t,
  no_marker (a ++ t) -> sub_go version_re n (last a) t = t.
Proof.
  induction n as [|n IH]; intros a t Hno; [apply sub_go_0|].
  destruct t as [|c t]; [done|]. rewrite sub_go_cons, match_at_version.
  assert (Hnone : (if xorb (word_before (last a)) (word_after (c :: t))
                   then option_map (fun r => length (c :: t) - length r)
                          (marker_end (c :: t))
                   else None) = None).
  { destruct (xorb _ _) eqn:Hb; [|done].
    destruct (marker_end (c :: t)) as [r|] eqn:Hm; [|done]. exfalso.
    destruct (marker_end_sound _ _ Hm) as (kw & dot & sp & ds & gs & Hok & Heq & Hr).
    destruct (marker_end_head _ _ Hm) as (x & u & [= <- <-] & Hx).
    apply (Hno a kw dot sp ds gs r); [by rewrite Heq | done | | done].
    cbn [word_after] in Hb. rewrite (lit_v_is_word c Hx) in Hb.
    unfold ends_outside_word. by destruct (word_before (last a)). }
  rewrite Hnone. f_equal. specialize (IH (a ++ [c]) t). rewrite last_snoc in IH.
  apply IH. by rewrite <- app_assoc.
Qed.

(** A text without a marker is left as it is. *)
Lemma no_marker_no_change s : no_marker s -> sub_chars version_re s = s.
Proof. intros Hno. apply (sub_go_no_marker _ [] s Hno). Qed.

Lemma marker_free_app a : forall prev t,
  marker_free prev (a ++ t) = true ->
  marker_free (from_option Some prev (last a)) t = true.
Proof.
  induction a as [|c a IH]; intros prev t; [done|].
  cbn [app marker_free]. intros [_ Hfree]%andb_prop. rewrite last_run. by apply IH.
Qed.

Lemma marker_free_no_marker s : marker_free None s = true -> no_marker s.
Proof.
  intros Hfree a kw dot sp ds gs b -> Hok Ha Hb.
  apply marker_free_app in Hfree.
  destruct (marker_ok_parts _ _ _ _ _ Hok) as (Hkw & _ & _ & _ & Hgs).
  destruct (number_end_some gs b Hgs Hb) as [r Hr].
  pose proof (marker_end_marker _ _ _ _ _ _ _ Hok Hr) as Hm.
  destruct (keyword_starts_a_word kw (dot ++ sp ++ ds ++ dotted gs) Hkw)
    as (x & t & Heq & Hx).
  fold (marker kw dot sp ds gs) in Heq. rewrite Heq in *.
  change ((x :: t) ++ b) with (x :: t ++ b) in *.
  cbn [marker_free] in Hfree. rewrite Hm, Hx in Hfree.
  unfold ends_outside_word in Ha. apply negb_true_iff in Ha.
  replace (word_before (from_option Some None (last a))) with false in Hfree
    by (by destruct (last a)).
  rewrite bool_decide_eq_true_2 in Hfree by eauto. discriminate.
Qed.

Lemma ends_the_number_head rest :
  ends_the_number rest = true -> head_fails is_word rest = true.
Proof. destruct rest as [|c t]; [done|]. simpl. by intros [? _]%andb_prop. Qed.

Lemma no_marker_app_l pre rest :
  no_marker (pre ++ rest) -> head_fails is_word rest = true -> no_marker pre.
Proof.
  intros Hno Hrest a kw dot sp ds gs b -> Hok Ha Hb.
  apply (Hno a kw dot sp ds gs (b ++ rest)); [by rewrite <- !app_assoc | done | done |].
  by destruct b.
Qed.

Lemma no_marker_app_r pre rest :
  no_marker (pre ++ rest) -> ends_outside_word pre = true -> no_marker rest.
Proof.
  intros Hno Hpre a kw dot sp ds gs b -> Hok Ha Hb.
  apply (Hno (pre ++ a) kw dot sp ds gs b); [by rewrite <- !app_assoc | done | | done].
  destruct a as [|x a]; [by rewrite app_nil_r|]. by rewrite ends_outside_word_app.
Qed.

(** When the title without the marker has no marker, cleaning the title
    is cleaning the title without the marker. *)
Lemma clean_title_without_marker pre kw dot sp ds gs rest :
  marker_ok kw dot sp ds gs = true ->
  ends_outside_word pre = true -> ends_the_number rest = true ->
  no_marker (pre ++ rest) ->
  _clean_title (Some (str (pre ++ marker kw dot sp ds gs ++ rest)))
    = _clean_title (Some (str (pre ++ rest))).
Proof.
  intros Hok Hpre Hrest Hno.
  pose proof (ends_the_number_head rest Hrest) as Hhead.
  assert (Hwith : sub version_re (str (pre ++ marker kw dot sp ds gs ++ rest))
                  = str (pre ++ rest)).
  { unfold sub. rewrite chars_str, marker_is_taken_out by done.
    rewrite (no_marker_no_change pre) by (by eapply no_marker_app_l).
    by rewrite (no_marker_no_change rest) by (by eapply no_marker_app_r). }
  assert (Hwithout : sub version_re (str (pre ++ rest)) = str (pre ++ rest)).
  { unfold sub. by rewrite chars_str, no_marker_no_change. }
  destruct (marker_ok_parts _ _ _ _ _ Hok) as (Hkw & _).
  destruct (keyword_starts_a_word kw (dot ++ sp ++ ds ++ dotted gs) Hkw)
    as (a & t & Heq & _).
  fold (marker kw dot sp ds gs) in Heq.
  assert (Hfull : is_empty (str (pre ++ marker kw dot sp ds gs ++ rest)) = false).
  { rewrite Heq. by destruct pre. }
  unfold _clean_title. rewrite Hfull, Hwith, Hwithout.
  destruct (pre ++ rest) eqn:Hboth; reflexivity.
Qed.

(** *** The second pass around a span *)

Lemma sub_go_bracket_prev n prev prev' s :
  sub_go bracket_re n prev s = sub_go bracket_re n prev' s.
Proof.
  destruct n; [by rewrite !sub_go_0|]. destruct s as [|c s]; [done|].
  by rewrite !sub_go_cons, !match_at_bracket.
Qed.

Lemma after_close_span body c rest :
  inside_span body = true -> is_close c = true ->
  after_close (body ++ c :: rest) = Some rest.
Proof.
  intros Hbody Hc. induction body as [|x body IH]; cbn [app after_close].
  - by rewrite Hc.
  - unfold inside_span in Hbody. cbn [forallb] in Hbody.
    apply andb_prop in Hbody as [[Hx Hn]%andb_prop Hbody].
    apply negb_true_iff in Hx, Hn. rewrite Hx, Hn. by apply IH.
Qed.

Lemma after_close_open body rest :
  forallb (fun x => negb (is_close x)) body = true -> at_line_end rest = true ->
  after_close (body ++ rest) = None.
Proof.
  intros Hbody Hrest. induction body as [|x body IH]; cbn [app after_close].
  - destruct rest as [|c rest]; [done|]. cbn [at_line_end after_close] in *.
    apply Ascii.eqb_eq in Hrest as ->. reflexivity.
  - cbn [forallb] in Hbody. apply andb_prop in Hbody as [Hx Hbody].
    apply negb_true_iff in Hx. rewrite Hx.
    destruct (Ascii.eqb x newline); [done | by apply IH].
Qed.

(** A span from an opening bracket to the first closing bracket of the
    line is taken out. *)
Lemma span_is_taken_out o body c rest :
  is_open o = true -> inside_span body = true -> is_close c = true ->
  sub_chars bracket_re (o :: body ++ c :: rest) = sub_chars bracket_re rest.
Proof.
  intros Ho Hbody Hc. unfold sub_chars at 1. cbn [length].
  rewrite sub_go_cons, match_at_bracket, Ho, after_close_span by done.
  replace (S (length (body ++ c :: rest)) - length rest) with (S (S (length body)))
    by (rewrite length_app; simpl; lia).
  change (o :: body ++ c :: rest) with ((o :: body) ++ [c] ++ rest).
  rewrite app_assoc.
  rewrite (drop_app_length' ((o :: body) ++ [c]) rest)
    by (rewrite length_app; simpl; lia).
  unfold sub_chars. rewrite (sub_go_bracket_prev _ _ None).
  apply sub_go_fuel; [|done]. rewrite !length_app. simpl. lia.
Qed.

(** An opening bracket without a closing bracket on the rest of its line
    stays. *)
Lemma open_bracket_stays o body rest :
  is_open o = true -> forallb (fun x => negb (is_close x)) body = true ->
  at_line_end rest = true ->
  sub_chars bracket_re (o :: body ++ rest) = o :: sub_chars bracket_re (body ++ rest).
Proof.
  intros Ho Hbody Hrest. unfold sub_chars at 1. cbn [length].
  rewrite sub_go_cons, match_at_bracket, Ho, after_close_open by done.
  f_equal. apply sub_go_bracket_prev.
Qed.

Lemma other_character_stays x rest :
  is_open x = false ->
  sub_chars bracket_re (x :: rest) = x :: sub_chars bracket_re rest.
Proof.
  intros Hx. unfold sub_chars at 1. cbn [length].
  rewrite sub_go_cons, match_at_bracket, Hx. f_equal. apply sub_go_bracket_prev.
Qed.

(** C7, as the code has it.  Cleaning the title of the specification gives
    Spellcraft, and cleaning is three passes.  The first takes out every
    version marker (v, ver or vol in any case, an optional dot, whitespace,
    digits and further groups of a dot and digits) that starts at a word
    boundary and is followed by the end of the text or by a character
    that is no word character and no dot with a digit behind it; what
    stands before and after it is cleaned as if it stood alone, and a text
    without a marker between a word boundary and a character outside
    words is left as it is; so when the title without the marker has no
    marker, cleaning the title is cleaning the title without the marker.
    The second takes out every span from an
    opening bracket to the first closing bracket behind it when no line
    break lies between them, and keeps every other character: an opening
    bracket with no closing bracket on the rest of its line, and whatever
    is no opening bracket.  The third splits at whitespace and joins the
    words with single spaces, so the result is a list of solid words
    joined by single spaces.  For a title without a line break no opening
    bracket of the result has a closing bracket after it. *)
Theorem clean_title_spec :
  _clean_title (Some "Spellcraft Vol. 2 (2020 Edition)") = "Spellcraft" /\
  (forall s,
     chars (_clean_title (Some s)) =
       join_chars [" "%char]
         (split_chars (sub_chars bracket_re (sub_chars version_re (chars s))))) /\
  (forall pre kw dot sp ds gs rest,
     marker_ok kw dot sp ds gs = true ->
     ends_outside_word pre = true -> ends_the_number rest = true ->
     sub_chars version_re (pre ++ marker kw dot sp ds gs ++ rest)
       = sub_chars version_re pre ++ sub_chars version_re rest) /\
  (forall s, no_marker s -> sub_chars version_re s = s) /\
  (forall pre kw dot sp ds gs rest,
     marker_ok kw dot sp ds gs = true ->
     ends_outside_word pre = true -> ends_the_number rest = true ->
     no_marker (pre ++ rest) ->
     _clean_title (Some (str (pre ++ marker kw dot sp ds gs ++ rest)))
       = _clean_title (Some (str (pre ++ rest)))) /\
  (forall o body c rest,
     is_open o = true -> inside_span body = true -> is_close c = true ->
     sub_chars bracket_re (o :: body ++ c :: rest) = sub_chars bracket_re rest) /\
  (forall o body rest,
     is_open o = true -> forallb (fun x => negb (is_close x)) body = true ->
     at_line_end rest = true ->
     sub_chars bracket_re (o :: body ++ rest)
       = o :: sub_chars bracket_re (body ++ rest)) /\
  (forall x rest,
     is_open x = false ->
     sub_chars bracket_re (x :: rest) = x :: sub_chars bracket_re rest) /\
  (forall title, exists ws,
     forallb solid ws = true /\
     chars (_clean_title title) = join_chars [" "%char] ws) /\
  (forall s, one_line s = true ->
     has_span (chars (_clean_title (Some s))) = false).
Proof.
  split; [vm_compute; reflexivity|].
  split.
  { intros s. destruct (is_empty s) eqn:Hs; [by destruct s|].
    by apply chars_clean_title. }
  split; [apply marker_is_taken_out|].
  split; [apply no_marker_no_change|].
  split; [apply clean_title_without_marker|].
  split; [apply span_is_taken_out|].
  split; [apply open_bracket_stays|].
  split; [apply other_character_stays|].
  split.
  - intros [s|]; [|by exists []].
    destruct (is_empty s) eqn:Hs.
    + exists []. unfold _clean_title. by rewrite Hs.
    + eexists. split; [|by apply chars_clean_title].
      by apply split_go_solid.
  - intros s Hline. destruct (is_empty s) eqn:Hs.
    + unfold _clean_title. by rewrite Hs.
    + rewrite chars_clean_title by done.
      rewrite has_span_brackets, brackets_join_split, <- has_span_brackets.
      apply sub_bracket_no_span; [unfold sub_chars; lia|].
      by apply sub_go_forallb.
Qed.

End Cleaning.

Lemma clean_title_spec_witness :
  Re.sub_chars version_re (PyStr.chars "Vampire Codex v2 (PDF) vol. 1.5")
    = Re.sub_chars version_re (PyStr.chars "Vampire Codex ")
      ++ Re.sub_chars version_re (PyStr.chars " (PDF) vol. 1.5") /\
  Re.sub_chars version_re (PyStr.chars "Vampire Codex ") = PyStr.chars "Vampire Codex " /\
  _clean_title (Some "Vampire Codex v2. Second printing")
    = _clean_title (Some "Vampire Codex . Second printing") /\
  Re.sub_chars bracket_re (PyStr.chars "(Second (Revised) Edition) [PDF]")
    = Re.sub_chars bracket_re (PyStr.chars " Edition) [PDF]") /\
  Re.sub_chars bracket_re (PyStr.chars "(Part" ++ Re.newline :: PyStr.chars "Two)")
    = "("%char :: Re.sub_chars bracket_re (PyStr.chars "Part" ++ Re.newline :: PyStr.chars "Two)") /\
  has_span (PyStr.chars (_clean_title (Some "Tome (Second (Revised) Edition) [PDF]")))
    = false.
Proof.
  split; [|split; [|split; [|split; [|split]]]].
  - exact (proj1 (proj2 (proj2 clean_title_spec))
             (PyStr.chars "Vampire Codex ") (PyStr.chars "v") [] []
             (PyStr.chars "2") [] (PyStr.chars " (PDF) vol. 1.5")
             eq_refl eq_refl eq_refl).
  - exact (proj1 (proj2 (proj2 (proj2 clean_title_spec)))
             (PyStr.chars "Vampire Codex ")
             (marker_free_no_marker (PyStr.chars "Vampire Codex ") eq_refl)).
  - exact (proj1 (proj2 (proj2 (proj2 (proj2 clean_title_spec))))
             (PyStr.chars "Vampire Codex ") (PyStr.chars "v") [] []
             (PyStr.chars "2") [] (PyStr.chars ". Second printing")
             eq_refl eq_refl eq_refl
             (marker_free_no_marker (PyStr.chars "Vampire Codex . Second printing")
                eq_refl)).
  - exact (proj1 (proj2 (proj2 (proj2 (proj2 (proj2 clean_title_spec)))))
             "("%char (PyStr.chars "Second (Revised") ")"%char
             (PyStr.chars " Edition) [PDF]") eq_refl eq_refl eq_refl).
  - exact (proj1 (proj2 (proj2 (proj2 (proj2 (proj2 (proj2 clean_title_spec))))))
             "("%char (PyStr.chars "Part") (Re.newline :: PyStr.chars "Two)")
             eq_refl eq_refl eq_refl).
  - exact (proj2 (proj2 (proj2 (proj2 (proj2 (proj2 (proj2 (proj2 (proj2
             clean_title_spec))))))))
             "Tome (Second (Revised) Edition) [PDF]" eq_refl).
Defined.

Example clean_title_markers :
  _clean_title (Some "Codex v2") = "Codex" /\
  _clean_title (Some "Codex VOL. 1.5 [PDF]") = "Codex" /\
  _clean_title (Some "Rev2 of v2a") = "Rev2 of v2a".
Proof. repeat split; vm_compute; reflexivity. Qed.

(** Markers in a title with another letter v, two markers, a marker
    before a full stop, and a number that goes on into a word. *)
Example more_markers :
  _clean_title (Some "Vampire Codex v2") = "Vampire Codex" /\
  _clean_title (Some "Codex v2 vol. 3") = "Codex" /\
  _clean_title (Some "Codex v2. Second printing") = "Codex . Second printing" /\
  _clean_title (Some "Codex v1.5x") = "Codex .5x".
Proof. repeat split; vm_compute; reflexivity. Qed.

(** C7 as stated fails, twice.  Of nested parentheses only the text up to
    the first closing one is removed, and the tail of the span stays; and
    a span that runs over a line break is not removed at all, so that
    after the whitespace is collapsed it stands in the result in full. *)
Lemma bracketed_span_is_not_always_removed :
  _clean_title (Some "Tome (Second (Revised) Edition)") = "Tome Edition)" /\
  _clean_title (Some ("Grimoire (Part" +:+ String Re.newline "Two)"))
    = "Grimoire (Part Two)" /\
  has_span (PyStr.chars "Grimoire (Part Two)") = true.
Proof. repeat split; vm_compute; reflexivity. Qed.

(** ** Detail mapping *)

Section Mapping.
Context `{H : Host}.
Import PyStr Py.

(** C8. The envelope with description.name Dracula, the author Bram Stoker,
    the date of availability 1897-05-26 and an included Publisher named
    Archibald Constable is mapped without an error to one record that has
    that title, those authors, that publisher and the parsed date; the
    description is the empty default, no cover is cached, and the
    identifier and the source are the ones every record carries. *)
Theorem dracula_envelope_maps_to_its_record product_id timeout st raw d :
  curl_result st (details_url product_id) timeout = inr raw ->
  json_loads raw = Some Demo.dracula_envelope ->
  parse_date (JStr "1897-05-26T00:00:00-00:00") = Some d ->
  _get_product_details product_id timeout st =
    (inr tt,
     add_results
       [QMetadata
          {| title := JStr "Dracula";
             authors := JList [JStr "Bram Stoker"];
             identifiers := {[ "drivethrufiction" := py_str product_id ]};
             source := Some name;
             comments := JStr EmptyString;
             publisher := Some (JStr "Archibald Constable");
             pubdate := Some d |}]
       (add_events [curl_event st (details_url product_id) timeout] st)).
Proof.
  intros Hraw Hloads Hdate.
  rewrite get_product_details_run. unfold details_answer.
  rewrite Hraw; simpl. unfold loads. rewrite Hloads; simpl.
  rewrite Hdate. reflexivity.
Qed.

Lemma map_details_pubdate product_id root mi cover :
  map_details product_id root = inr (mi, cover) ->
  pubdate mi =
    if truthy (date_field root) then parse_date (date_field root) else None.
Proof.
  unfold map_details, date_field.
  destruct (get root "data" _) as [e|data]; simpl; [discriminate|].
  destruct (get data "attributes" _) as [e|attrs]; simpl; [discriminate|].
  destruct (get attrs "description" _) as [e|desc_obj]; simpl; [discriminate|].
  destruct (get desc_obj "name" _) as [e|desc_name]; simpl; [discriminate|].
  destruct (get attrs "name" _) as [e|attrs_name]; simpl; [discriminate|].
  destruct (get attrs "authors" _) as [e|authors]; simpl; [discriminate|].
  destruct (get desc_obj "description" _) as [e|comments]; simpl; [discriminate|].
  destruct (has "included" root) as [e|present]; simpl; [discriminate|].
  destruct (if present then _ else _) as [e|found]; simpl; [discriminate|].
  destruct (get attrs "dateAvailable" _) as [e|date_str]; simpl; [discriminate|].
  destruct (get attrs "image" _) as [e|img_path]; simpl; [discriminate|].
  by intros [= <- _].
Qed.

Lemma map_details_any_parser p product_id root :
  is_ok (map_details (H := with_parser H p) product_id root)
    = is_ok (map_details product_id root).
Proof.
  unfold map_details.
  destruct (get root "data" _) as [e|data]; simpl; [reflexivity|].
  destruct (get data "attributes" _) as [e|attrs]; simpl; [reflexivity|].
  destruct (get attrs "description" _) as [e|desc_obj]; simpl; [reflexivity|].
  destruct (get desc_obj "name" _) as [e|desc_name]; simpl; [reflexivity|].
  destruct (get attrs "name" _) as [e|attrs_name]; simpl; [reflexivity|].
  destruct (get attrs "authors" _) as [e|authors]; simpl; [reflexivity|].
  destruct (get desc_obj "description" _) as [e|comments]; simpl; [reflexivity|].
  destruct (has "included" root) as [e|present]; simpl; [reflexivity|].
  destruct (if present then _ else _) as [e|found]; simpl; [reflexivity|].
  destruct (get attrs "dateAvailable" _) as [e|date_str]; simpl; [reflexivity|].
  destruct (get attrs "image" _) as [e|img_path]; reflexivity.
Qed.

Lemma get_product_details_any_parser p product_id timeout st :
  is_ok (fst (_get_product_details (H := with_parser H p) product_id timeout st))
    = is_ok (fst (_get_product_details product_id timeout st)).
Proof.
  rewrite !get_product_details_run. unfold details_answer.
  change (curl_result (H := with_parser H p) st
            (details_url (H := with_parser H p) product_id) timeout)
    with (curl_result st (details_url product_id) timeout).
  destruct (curl_result st (details_url product_id) timeout) as [e|raw]; simpl;
    [reflexivity|].
  change (loads (H := with_parser H p) raw) with (loads raw).
  destruct (loads raw) as [e|root]; simpl; [reflexivity|].
  pose proof (map_details_any_parser p product_id root) as Hsame.
  destruct (map_details (H := with_parser H p) product_id root) as [e|[mi cover]],
    (map_details product_id root) as [e'|[mi' cover']]; simpl in *;
    congruence.
Qed.

(** C9. Let the response carry no date of availability, or one the parser
    rejects.  Then whether the mapping succeeds is what it would be with
    any other date parser, so the date decides nothing; and when the rest
    of the envelope maps, the record is queued with its date unset. *)
Theorem bad_date_never_fails_the_mapping p product_id timeout st raw root :
  curl_result st (details_url product_id) timeout = inr raw ->
  json_loads raw = Some root ->
  truthy (date_field root) = false \/ parse_date (date_field root) = None ->
  is_ok (fst (_get_product_details (H := with_parser H p) product_id timeout st))
    = is_ok (fst (_get_product_details product_id timeout st)) /\
  match map_details product_id root with
  | inr (mi, cover) =>
      pubdate mi = None /\
      _get_product_details product_id timeout st =
        (inr tt,
         add_results [QMetadata mi]
           (cache_opt cover product_id
              (add_events [curl_event st (details_url product_id) timeout] st)))
  | inl e =>
      _get_product_details product_id timeout st =
        (inl e, add_events [curl_event st (details_url product_id) timeout] st)
  end.
Proof.
  intros Hraw Hloads Hdate.
  split; [apply get_product_details_any_parser|].
  rewrite get_product_details_run. unfold details_answer.
  rewrite Hraw; simpl. unfold loads. rewrite Hloads; simpl.
  destruct (map_details product_id root) as [e|[mi cover]] eqn:Hmap; [reflexivity|].
  split; [|reflexivity].
  rewrite (map_details_pubdate _ _ _ _ Hmap).
  destruct Hdate as [-> | Hnone]; [reflexivity|].
  rewrite Hnone. by destruct (truthy _).
Qed.

End Mapping.

Lemma dracula_envelope_maps_to_its_record_witness :
  _get_product_details (H := Demo.catalog_host) (JInt 240640) 30 Demo.fresh =
    (inr tt,
     add_results
       [QMetadata
          {| title := JStr "Dracula";
             authors := JList [JStr "Bram Stoker"];
             identifiers := {[ "drivethrufiction" := "240640" ]};
             source := Some name;
             comments := JStr EmptyString;
             publisher := Some (JStr "Archibald Constable");
             pubdate := Some {| year := 1897; month := 5; day := 26;
                                hour := 0; minute := 0; second := 0;
                                utcoffset := Some 0%Z |} |}]
       (add_events [curl_event Demo.fresh
                      (details_url (H := Demo.catalog_host) (JInt 240640)) 30]
          Demo.fresh)).
Proof.
  exact (dracula_envelope_maps_to_its_record (H := Demo.catalog_host)
           (JInt 240640) 30%Z Demo.fresh "<dracula>" _ eq_refl eq_refl eq_refl).
Defined.

Lemma bad_date_never_fails_the_mapping_witness :
  exists mi,
    pubdate mi = None /\
    result_queue (snd (_get_product_details (H := Demo.catalog_host)
                         (JStr "8") 30 Demo.fresh)) = [QMetadata mi].
Proof.
  destruct (bad_date_never_fails_the_mapping (H := Demo.catalog_host)
              Demo.demo_parse_date (JStr "8") 30%Z Demo.fresh "<undated>"
              Demo.undated_envelope eq_refl eq_refl (or_introl eq_refl))
    as [_ Hmap].
  cbv beta iota delta [map_details] in Hmap. simpl in Hmap.
  destruct Hmap as [Hdate Hrun].
  rewrite Hrun. eexists. split; [|reflexivity]. exact Hdate.
Defined.

(** A date the parser rejects: the record is queued all the same. *)
Example unparseable_date_is_left_unset :
  exists mi,
    pubdate mi = None /\ title mi = JStr "Dracula" /\
    _get_product_details (H := Demo.catalog_host) (JStr "9") 30 Demo.fresh =
      (inr tt,
       add_results [QMetadata mi]
         (add_events [curl_event Demo.fresh
                        (details_url (H := Demo.catalog_host) (JStr "9")) 30]
            Demo.fresh)).
Proof. eexists. split; [|split; [|vm_compute; reflexivity]]; reflexivity. Qed.

(** ** The cover cache *)

Section CoverCache.
Context `{H : Host}.
Import PyStr Py.



Lemma get_product_details_cache product_id timeout st :
  cover_cache (snd (_get_product_details product_id timeout st)) = cover_cache st \/
  exists url,
    cover_cache (snd (_get_product_details product_id timeout st))
      = <[py_str product_id := url]> (cover_cache st).
Proof.
  rewrite get_product_details_run; simpl.
  destruct (details_answer _ _ _) as [e|[mi [url|]]]; simpl; eauto.
Qed.













End CoverCache.



(** The URL of an identifier does change when a later [identify] queues
    a record for the same product with another image. *)
Example identify_again_replaces_the_url :
  let first := snd (identify (H := Demo.moving_host) None None
                      {[ "drivethrufiction" := "7" ]} 30 Demo.fresh) in
  let second := snd (identify (H := Demo.moving_host) None None
                       {[ "drivethrufiction" := "7" ]} 30 first) in
  cover_cache first !! "7"
    = Some "https://www.drivethrufiction.com/images/8957/240640.jpg" /\
  cover_cache second !! "7"
    = Some "https://www.drivethrufiction.com/images/1/new.jpg".
Proof. split; vm_compute; reflexivity. Qed.

(** * Further properties of the plugin *)

(** ** What [identify] does in every case *)

Section Identify.
Context `{H : Host}.
Import PyStr Py.

Lemma resolve_ok title authors timeout st :
  exists r, fst (resolve title authors timeout st) = inr r.
Proof.
  rewrite resolve_run. destruct (is_empty _); [by eexists|].
  destruct (first_hit _ _ _) as [[e|[|m ms]] st']; by eexists.
Qed.

Lemma first_hit_fails pre q post timeout st st1 e st2 :
  first_hit pre timeout st = (inr [], st1) ->
  _api_search q timeout st1 = (inl e, st2) ->
  first_hit (pre ++ q :: post) timeout st = (inl e, st2).
Proof.
  intros Hpre Hq. revert st Hpre.
  induction pre as [|p pre IH]; intros st; simpl.
  - unfold ret. intros [= <-]. unfold bind. by rewrite Hq.
  - unfold bind. destruct (_api_search p timeout st) as [[e'|[|m' ms']] st'];
      simpl; try discriminate. apply IH.
Qed.

Lemma candidates_at_most_four title authors :
  length (candidates title authors) <= 4.
Proof.
  unfold candidates, strategies.
  destruct (list_truthy authors && _), (differs _ _),
    (4 <? length (split (_clean_title title)))%nat; simpl; lia.
Qed.

Lemma resolve_trace title authors timeout st :
  exists evs,
    snd (resolve title authors timeout st) = add_events evs st /\
    length evs <= 4.
Proof.
  rewrite resolve_run. destruct (is_empty _).
  - exists []. split; [by rewrite add_events_nil | simpl; lia].
  - destruct (first_hit_trace (candidates title authors) timeout st)
      as (qs' & Hpre & Hsnd).
    exists (map (fun q => curl_event st (search_url q) timeout) qs').
    split.
    + destruct (first_hit _ _ _) as [[e|[|m ms]] st']; exact Hsnd.
    + rewrite length_map. apply prefix_length in Hpre.
      pose proof (candidates_at_most_four title authors). lia.
Qed.

(** X1. [identify] and [download_cover] return normally whatever the
    host answers: every exception of a round trip, of the JSON parser or
    of the mapping is caught inside. *)
Theorem identify_and_download_cover_never_raise title authors ids timeout st :
  fst (identify title authors ids timeout st) = inr tt /\
  fst (download_cover ids timeout st) = inr tt.
Proof.
  split.
  - rewrite identify_run. cbv zeta.
    destruct (truthy (from_option JStr JNull (plugin_id ids))) eqn:Hgiven.
    + by rewrite Hgiven.
    + destruct (resolve_ok title authors timeout st) as [r Hr].
      destruct (resolve title authors timeout st) as [[e|[pid|]] st1];
        simpl in Hr; try discriminate; [|reflexivity].
      by destruct (truthy pid).
  - unfold download_cover, bind. unfold get_cached_cover_url, bind, get_state, ret.
    destruct (ids !! "drivethrufiction") as [k|]; [|reflexivity].
    destruct (str_truthy (Some k)); [|reflexivity].
    destruct (from_option _ _ _ !! k) as [u|]; [|reflexivity].
    destruct (str_truthy (Some u)); [|reflexivity].
    unfold try_except, bind. rewrite fetch_via_curl_run.
    destruct (curl_result st u timeout); reflexivity.
Qed.

(** X2. [identify] only appends to the trace, and never more than five
    round trips: at most four searches and one detail fetch. *)
Theorem identify_sends_at_most_five_requests title authors ids timeout st :
  exists evs,
    trace (snd (identify title authors ids timeout st)) = trace st ++ evs /\
    length evs <= 5.
Proof.
  rewrite identify_run. cbv zeta.
  destruct (truthy (from_option JStr JNull (plugin_id ids))) eqn:Hgiven.
  - rewrite Hgiven. cbn [snd]. rewrite get_product_details_trace.
    eexists. split; [reflexivity | simpl; lia].
  - destruct (resolve_trace title authors timeout st) as (evs & Hsnd & Hlen).
    destruct (resolve_ok title authors timeout st) as [r Hr].
    destruct (resolve title authors timeout st) as [[e|[pid|]] st1];
      simpl in Hr, Hsnd; try discriminate; subst st1.
    + destruct (truthy pid); cbn [snd].
      * rewrite get_product_details_trace. simpl. rewrite <- app_assoc.
        eexists. split; [reflexivity|]. rewrite length_app. simpl. lia.
      * exists evs. split; [reflexivity | lia].
    + exists evs. split; [reflexivity | lia].
Qed.

(** X3. With a catalog identifier among the identifiers [identify] does
    not search: title and authors play no part, and the one round trip
    is the detail fetch for that identifier. *)
Theorem identifier_skips_the_search title authors ids timeout st pid :
  plugin_id ids = Some pid -> pid <> EmptyString ->
  identify title authors ids timeout st = identify None None ids timeout st /\
  trace (snd (identify title authors ids timeout st)) =
    trace st ++ [curl_event st (details_url (JStr pid)) timeout].
Proof.
  intros Hid Hne.
  assert (Hgiven : truthy (from_option JStr JNull (plugin_id ids)) = true).
  { rewrite Hid. simpl. by destruct pid. }
  rewrite !identify_run. cbv zeta. rewrite !Hgiven.
  split; [reflexivity|]. cbn [snd]. rewrite Hid. apply get_product_details_trace.
Qed.

(** X4. A search that raises ends [identify]: when the candidates before
    [q] found nothing and the search for [q] fails, no later candidate is
    tried, no detail is fetched and nothing is queued or cached. *)
Theorem failed_search_ends_identify title authors ids timeout st pre q post st1 e st2 :
  str_truthy (plugin_id ids) = false ->
  is_empty (_create_query title authors) = false ->
  candidates title authors = pre ++ q :: post ->
  first_hit pre timeout st = (inr [], st1) ->
  _api_search q timeout st1 = (inl e, st2) ->
  identify title authors ids timeout st = (inr tt, st2) /\
  st2 = add_events
          (map (fun c => curl_event st (search_url c) timeout) (pre ++ [q])) st.
Proof.
  intros Hid Hquery Hcand Hpre Hq.
  assert (Hrun : first_hit (candidates title authors) timeout st = (inl e, st2)).
  { rewrite Hcand. by eapply first_hit_fails. }
  split.
  - rewrite identify_run. cbv zeta.
    replace (truthy (from_option JStr JNull (plugin_id ids))) with false
      by (destruct (plugin_id ids); simpl in *; congruence).
    by rewrite resolve_run, Hquery, Hrun.
  - apply first_hit_all_empty in Hpre. subst st1.
    rewrite api_search_run in Hq. injection Hq as _ <-.
    by rewrite add_events_app, map_app.
Qed.

Lemma or_unknown_truthy a b :
  truthy (or_ (or_ a b) (JStr "Unknown")) = true.
Proof.
  unfold or_. destruct (truthy a) eqn:Ha; rewrite ?Ha; [reflexivity|].
  destruct (truthy b) eqn:Hb; rewrite ?Hb; reflexivity.
Qed.

Lemma map_details_record product_id root mi cover :
  map_details product_id root = inr (mi, cover) ->
  identifiers mi = {[ "drivethrufiction" := py_str product_id ]} /\
  source mi = Some name /\
  truthy (title mi) = true /\ truthy (authors mi) = true.
Proof.
  unfold map_details.
  destruct (get root "data" _) as [e|data]; simpl; [discriminate|].
  destruct (get data "attributes" _) as [e|attrs]; simpl; [discriminate|].
  destruct (get attrs "description" _) as [e|desc_obj]; simpl; [discriminate|].
  destruct (get desc_obj "name" _) as [e|desc_name]; simpl; [discriminate|].
  destruct (get attrs "name" _) as [e|attrs_name]; simpl; [discriminate|].
  destruct (get attrs "authors" _) as [e|auth]; simpl; [discriminate|].
  destruct (get desc_obj "description" _) as [e|comm]; simpl; [discriminate|].
  destruct (has "included" root) as [e|present]; simpl; [discriminate|].
  destruct (if present then _ else _) as [e|found]; simpl; [discriminate|].
  destruct (get attrs "dateAvailable" _) as [e|date_str]; simpl; [discriminate|].
  destruct (get attrs "image" _) as [e|img_path]; simpl; [discriminate|].
  intros [= <- _]. cbn [identifiers source title authors].
  repeat split; [apply or_unknown_truthy|].
  by destruct (truthy auth) eqn:Ha.
Qed.

Lemma get_product_details_queue product_id timeout st :
  result_queue (snd (_get_product_details product_id timeout st)) = result_queue st \/
  exists mi,
    result_queue (snd (_get_product_details product_id timeout st))
      = result_queue st ++ [QMetadata mi] /\
    identifiers mi = {[ "drivethrufiction" := py_str product_id ]} /\
    source mi = Some name /\
    truthy (title mi) = true /\ truthy (authors mi) = true.
Proof.
  rewrite get_product_details_run. cbv zeta. unfold details_answer.
  destruct (curl_result _ _ _) as [e|raw]; simpl; [by left|].
  destruct (loads raw) as [e|root]; simpl; [by left|].
  destruct (map_details product_id root) as [e|[mi cover]] eqn:Hmap; [by left|].
  right. exists mi. split; [by destruct cover|].
  by apply (map_details_record _ _ _ _ Hmap).
Qed.

Lemma resolve_found title authors timeout st p st1 :
  resolve title authors timeout st = (inr (Some p), st1) ->
  exists m ms,
    fst (first_hit (candidates title authors) timeout st) = inr (m :: ms) /\
    p = match_id m.
Proof.
  rewrite resolve_run. destruct (is_empty _); [discriminate|].
  destruct (first_hit _ _ _) as [[e|[|m ms]] st']; try discriminate.
  intros [= <- _]. by exists m, ms.
Qed.

(** X5. [identify] queues nothing or exactly one record.  A record it
    queues carries the catalog identifier it was looked up by: the one
    given among the identifiers, or with none given the identifier of
    the first match of the first candidate query that had a match.  Its
    source is the name of the plugin, and neither its title nor its
    authors are empty. *)
Theorem identify_queues_one_complete_record book_title book_authors ids timeout st :
  result_queue (snd (identify book_title book_authors ids timeout st)) = result_queue st \/
  exists mi p,
    (forall given, plugin_id ids = Some given -> given <> EmptyString -> p = JStr given) /\
    (str_truthy (plugin_id ids) = false ->
     exists m ms,
       fst (first_hit (candidates book_title book_authors) timeout st) = inr (m :: ms) /\
       p = match_id m) /\
    result_queue (snd (identify book_title book_authors ids timeout st))
      = result_queue st ++ [QMetadata mi] /\
    identifiers mi = {[ "drivethrufiction" := py_str p ]} /\
    source mi = Some name /\
    truthy (title mi) = true /\ truthy (authors mi) = true.
Proof.
  rewrite identify_run. cbv zeta.
  destruct (truthy (from_option JStr JNull (plugin_id ids))) eqn:Hgiven.
  - rewrite Hgiven. cbn [snd].
    destruct (get_product_details_queue
                (from_option JStr JNull (plugin_id ids)) timeout st)
      as [Hsame | (mi & Hq & Hrec)]; [by left|].
    right. exists mi, (from_option JStr JNull (plugin_id ids)).
    split; [|split; [|done]].
    + by intros given -> _.
    + intros Hnone. destruct (plugin_id ids) as [g|]; simpl in *; congruence.
  - destruct (resolve_trace book_title book_authors timeout st) as (evs & Hsnd & _).
    destruct (resolve book_title book_authors timeout st) as [[e|[p|]] st1] eqn:Hres;
      simpl in Hsnd; subst st1; [by left| |by left].
    destruct (truthy p); cbn [snd]; [|by left].
    destruct (get_product_details_queue p timeout (add_events evs st))
      as [Hsame | (mi & Hq & Hrec)]; [by left|].
    right. exists mi, p. split; [|split; [|done]].
    + intros given Hid Hne. rewrite Hid in Hgiven. simpl in Hgiven.
      by destruct given.
    + intros _. by apply (resolve_found _ _ _ _ _ _ Hres).
Qed.

(** X6. A detail fetch that fails, in the transport, in the parser or in
    the mapping, leaves the queue and the cover cache as they were: the
    only change is the one round trip in the trace. *)
Theorem failed_details_change_nothing product_id timeout st e :
  fst (_get_product_details product_id timeout st) = inl e ->
  snd (_get_product_details product_id timeout st)
    = add_events [curl_event st (details_url product_id) timeout] st.
Proof.
  rewrite get_product_details_run. cbv zeta.
  destruct (details_answer _ _ _) as [e'|[mi cover]]; [reflexivity | discriminate].
Qed.

(** X7. Only the first author takes part: [identify] with an author list
    does what it does with the list of its first entry alone. *)
Theorem only_the_first_author_counts title a others ids timeout st :
  identify title (Some (a :: others)) ids timeout st
    = identify title (Some [a]) ids timeout st.
Proof. reflexivity. Qed.

End Identify.

(** ** Publisher, search entries *)

Section Entries.
Import PyStr Py.

(** X8. The publisher is the name of the first included entry of type
    Publisher that has one: when the entries before it were passed over,
    the entries after it are never looked at, whatever they are. *)
Theorem first_named_publisher_wins pre inc post n :
  find_publisher pre = inr None ->
  named_publisher inc n ->
  find_publisher (pre ++ inc :: post) = inr (Some n).
Proof.
  intros Hpre (fields & attrs & -> & Htype & Hattrs & Hname & Hn).
  induction pre as [|p pre IH]; simpl in *.
  - rewrite Htype; simpl. rewrite Hattrs; simpl. rewrite Hname; simpl.
    by rewrite Hn.
  - destruct (get p "type" JNull) as [e|t]; simpl in *; [discriminate|].
    destruct (eq_str t "Publisher"); [|by apply IH].
    destruct (get p "attributes" _) as [e|a]; simpl in *; [discriminate|].
    destruct (get a "name" JNull) as [e|m]; simpl in *; [discriminate|].
    destruct (truthy m); [discriminate | by apply IH].
Qed.

Lemma search_items_app items1 items2 results :
  search_items (items1 ++ items2) results =
    sbind (search_items items1 results) (search_items items2).
Proof.
  revert results; induction items1 as [|item items1 IH]; intros results; simpl.
  - reflexivity.
  - destruct (search_item item results) as [e|r]; simpl; [reflexivity | apply IH].
Qed.

(** X9. One search entry whose name is not a string fails the whole
    search: the matches collected before it are lost and the entries
    after it are not read. *)
Theorem misnamed_entry_fails_the_search pre item post results found :
  search_items pre results = inr found ->
  misnamed_item item ->
  search_items (pre ++ item :: post) results = inl AttributeError.
Proof.
  intros Hpre (fields & attrs & pid & n & -> & Hattrs & Hid & Hpid & Hname & Hn & Hstr).
  rewrite search_items_app, Hpre. simpl. unfold search_item. simpl.
  rewrite Hattrs; simpl. rewrite Hid, Hname; simpl. rewrite Hpid, Hn. simpl.
  destruct n; try reflexivity. by destruct (Hstr s).
Qed.

End Entries.

Lemma first_named_publisher_wins_witness :
  find_publisher
    [ JDict [("type", JStr "Category"); ("attributes", JDict [("name", JStr "Horror")])];
      JDict [("type", JStr "Publisher"); ("attributes", JDict [])];
      JDict [("type", JStr "Publisher");
             ("attributes", JDict [("name", JStr "Archibald Constable")])];
      JInt 7;
      JDict [("type", JStr "Publisher"); ("attributes", JDict [("name", JStr "Other")])] ]
    = inr (Some (JStr "Archibald Constable")).
Proof.
  apply (first_named_publisher_wins
           [ JDict [("type", JStr "Category");
                    ("attributes", JDict [("name", JStr "Horror")])];
             JDict [("type", JStr "Publisher"); ("attributes", JDict [])] ]
           (JDict [("type", JStr "Publisher");
                   ("attributes", JDict [("name", JStr "Archibald Constable")])])
           [ JInt 7;
             JDict [("type", JStr "Publisher");
                    ("attributes", JDict [("name", JStr "Other")])] ]
           (JStr "Archibald Constable")).
  - reflexivity.
  - eexists _, _. repeat split; reflexivity.
Defined.

Lemma misnamed_entry_fails_the_search_witness :
  search_items
    [ Demo.search_item_json 102 "Grimoire";
      JDict [("attributes", JDict [("entityId", JInt 103); ("name", JInt 5)])];
      Demo.search_item_json 104 "Grimoire II" ] []
    = inl AttributeError.
Proof.
  apply (misnamed_entry_fails_the_search
           [Demo.search_item_json 102 "Grimoire"]
           (JDict [("attributes", JDict [("entityId", JInt 103); ("name", JInt 5)])])
           [Demo.search_item_json 104 "Grimoire II"] []
           [{| match_id := JInt 102; match_name := JStr "Grimoire" |}]).
  - reflexivity.
  - eexists _, _, _, _. repeat split; try reflexivity. discriminate.
Defined.

(** ** The cover cache and the cover download *)

Section Covers.
Context `{H : Host}.
Import PyStr Py.

Lemma get_cached_cover_url_run ids st :
  get_cached_cover_url ids st =
    (inr (match plugin_id ids with
          | Some k => if str_truthy (Some k) then cover_cache st !! k else None
          | None => None
          end), st).
Proof.
  unfold get_cached_cover_url, plugin_id, cover_cache, bind, get_state, ret.
  destruct (ids !! "drivethrufiction") as [k|]; [|reflexivity].
  by destruct (str_truthy (Some k)).
Qed.

(** X10. What [cache_cover_url] stores the lookup returns: under the
    identifier just cached the new URL, also where an older one stood,
    and under any other identifier what the cache held before. *)
Theorem cached_cover_url_is_found url product_id ids st k :
  plugin_id ids = Some k -> k <> EmptyString ->
  fst (get_cached_cover_url ids (snd (cache_cover_url url product_id st)))
    = inr (if decide (product_id = k) then Some url else cover_cache st !! k).
Proof.
  intros Hid Hk. rewrite get_cached_cover_url_run, Hid. cbn [fst].
  replace (str_truthy (Some k)) with true by (by destruct k).
  unfold cover_cache, cache_cover_url. cbn [snd _cached_cover from_option].
  by rewrite lookup_insert.
Qed.

(** X11. Without a catalog identifier, or with an empty one, the lookup
    finds nothing whatever the cache holds, and [download_cover] does
    nothing at all: no round trip, no result. *)
Theorem no_identifier_no_cover ids timeout st :
  str_truthy (plugin_id ids) = false ->
  get_cached_cover_url ids st = (inr None, st) /\
  download_cover ids timeout st = (inr tt, st).
Proof.
  intros Hid.
  assert (Hlook : get_cached_cover_url ids st = (inr None, st)).
  { rewrite get_cached_cover_url_run. destruct (plugin_id ids) as [k|]; [|reflexivity].
    by rewrite Hid. }
  split; [exact Hlook|]. unfold download_cover, bind. by rewrite Hlook.
Qed.

Lemma download_cover_run ids timeout st k url :
  plugin_id ids = Some k -> k <> EmptyString ->
  cover_cache st !! k = Some url -> url <> EmptyString ->
  download_cover ids timeout st =
    (inr tt,
     match curl_result st url timeout with
     | inr cdata => add_results [QCover cdata] (add_events [curl_event st url timeout] st)
     | inl _ => add_events [curl_event st url timeout] st
     end).
Proof.
  intros Hid Hk Hurl Hu. unfold download_cover, bind.
  rewrite get_cached_cover_url_run, Hid.
  replace (str_truthy (Some k)) with true by (by destruct k).
  rewrite Hurl. replace (str_truthy (Some url)) with true by (by destruct url).
  unfold try_except, bind. rewrite fetch_via_curl_run.
  destruct (curl_result st url timeout); reflexivity.
Qed.

(** X12. With a URL cached under the identifier [download_cover] makes
    one curl round trip for that URL; the body is queued as the cover
    when curl succeeds, and a failure of curl is swallowed with the queue
    left as it was. *)
Theorem download_cover_fetches_the_cached_url ids timeout st k url :
  plugin_id ids = Some k -> k <> EmptyString ->
  cover_cache st !! k = Some url -> url <> EmptyString ->
  download_cover ids timeout st =
    (inr tt,
     match curl_result st url timeout with
     | inr cdata => add_results [QCover cdata] (add_events [curl_event st url timeout] st)
     | inl _ => add_events [curl_event st url timeout] st
     end).
Proof. apply download_cover_run. Qed.

(** X13. [identify] and [download_cover] work together: when the detail
    response for a given identifier names an image, a later
    [download_cover] for the same identifier fetches that image from the
    image base of the catalog, with no second detail fetch. *)
Theorem identify_then_download_cover book_title book_authors ids timeout st
    pid raw root mi url :
  plugin_id ids = Some pid -> pid <> EmptyString ->
  curl_result st (details_url (JStr pid)) timeout = inr raw ->
  json_loads raw = Some root ->
  map_details (JStr pid) root = inr (mi, Some url) ->
  let st1 := snd (identify book_title book_authors ids timeout st) in
  starts_with (chars "https://www.drivethrufiction.com/images/") (chars url) = true /\
  result_queue st1 = result_queue st ++ [QMetadata mi] /\
  trace (snd (download_cover ids timeout st1)) =
    trace st ++ [curl_event st (details_url (JStr pid)) timeout;
                 curl_event st url timeout].
Proof.
  intros Hid Hne Hraw Hloads Hmap st1.
  assert (Hgiven : truthy (from_option JStr JNull (plugin_id ids)) = true).
  { rewrite Hid. simpl. by destruct pid. }
  assert (Hst1 : st1 =
            add_results [QMetadata mi]
              (cache_opt (Some url) (JStr pid)
                 (add_events [curl_event st (details_url (JStr pid)) timeout] st))).
  { unfold st1. rewrite identify_run. cbv zeta.
    rewrite Hid in Hgiven |- *. cbn [from_option] in Hgiven |- *.
    rewrite !Hgiven. cbn [snd]. rewrite get_product_details_run. cbv zeta.
    unfold details_answer. rewrite Hraw. simpl. unfold loads. rewrite Hloads. simpl.
    by rewrite Hmap. }
  assert (Hprefix : starts_with (chars "https://www.drivethrufiction.com/images/")
                      (chars url) = true).
  { revert Hmap. unfold map_details.
    destruct (get root "data" _) as [e|data]; simpl; [discriminate|].
    destruct (get data "attributes" _) as [e|attrs]; simpl; [discriminate|].
    destruct (get attrs "description" _) as [e|desc_obj]; simpl; [discriminate|].
    destruct (get desc_obj "name" _) as [e|desc_name]; simpl; [discriminate|].
    destruct (get attrs "name" _) as [e|attrs_name]; simpl; [discriminate|].
    destruct (get attrs "authors" _) as [e|auth]; simpl; [discriminate|].
    destruct (get desc_obj "description" _) as [e|comm]; simpl; [discriminate|].
    destruct (has "included" root) as [e|present]; simpl; [discriminate|].
    destruct (if present then _ else _) as [e|found]; simpl; [discriminate|].
    destruct (get attrs "dateAvailable" _) as [e|date_str]; simpl; [discriminate|].
    destruct (get attrs "image" _) as [e|img_path]; simpl; [discriminate|].
    destruct (truthy img_path); [|discriminate]. intros [= _ <-]. reflexivity. }
  split; [exact Hprefix|]. split; [by rewrite Hst1|].
  assert (Hu : url <> EmptyString) by (intros ->; discriminate).
  rewrite (download_cover_run ids timeout st1 pid url Hid Hne);
    [|rewrite Hst1; unfold cover_cache; simpl; apply lookup_insert_eq | exact Hu].
  rewrite Hst1.
  destruct (curl_result _ url timeout); simpl; by rewrite <- app_assoc.
Qed.

End Covers.

Lemma identifier_skips_the_search_witness :
  trace (snd (identify (H := Demo.catalog_host) (Some "Dracula") (Some ["Bram Stoker"])
                {[ "drivethrufiction" := "240640" ]} 30 Demo.fresh))
    = [curl_event Demo.fresh (details_url (H := Demo.catalog_host) (JStr "240640")) 30].
Proof.
  exact (proj2 (identifier_skips_the_search (H := Demo.catalog_host)
                  (Some "Dracula") (Some ["Bram Stoker"])
                  {[ "drivethrufiction" := "240640" ]} 30%Z Demo.fresh "240640"
                  eq_refl ltac:(discriminate))).
Defined.

Lemma failed_search_ends_identify_witness :
  identify (H := Demo.catalog_host) (Some "Carmilla") (Some ["Le Fanu"]) ∅ 30 Demo.fresh
    = (inr tt,
       add_events [curl_event Demo.fresh
                     (search_url (H := Demo.catalog_host) "Carmilla Le Fanu") 30]
         Demo.fresh).
Proof.
  exact (proj1 (failed_search_ends_identify (H := Demo.catalog_host)
                  (Some "Carmilla") (Some ["Le Fanu"]) ∅ 30%Z Demo.fresh
                  [] "Carmilla Le Fanu" ["Carmilla"] Demo.fresh
                  (CurlFailed "HTTP Error 404: Not Found") _
                  eq_refl eq_refl eq_refl eq_refl eq_refl)).
Defined.

Lemma failed_details_change_nothing_witness :
  snd (_get_product_details (H := Demo.catalog_host) (JStr "404") 30 Demo.fresh)
    = add_events [curl_event Demo.fresh (details_url (H := Demo.catalog_host) (JStr "404")) 30]
        Demo.fresh.
Proof.
  exact (failed_details_change_nothing (H := Demo.catalog_host) (JStr "404") 30%Z
           Demo.fresh (CurlFailed "HTTP Error 404: Not Found") eq_refl).
Defined.

Lemma cached_cover_url_is_found_witness :
  fst (get_cached_cover_url {[ "drivethrufiction" := "7" ]}
         (snd (cache_cover_url "https://www.drivethrufiction.com/images/new.jpg" "7"
                 (snd (cache_cover_url "https://www.drivethrufiction.com/images/old.jpg" "7"
                         Demo.fresh)))))
    = inr (Some "https://www.drivethrufiction.com/images/new.jpg").
Proof.
  exact (cached_cover_url_is_found
           "https://www.drivethrufiction.com/images/new.jpg" "7"
           {[ "drivethrufiction" := "7" ]}
           (snd (cache_cover_url "https://www.drivethrufiction.com/images/old.jpg" "7"
                   Demo.fresh))
           "7" eq_refl ltac:(discriminate)).
Defined.

Lemma no_identifier_no_cover_witness :
  download_cover (H := Demo.catalog_host) {[ "drivethrufiction" := EmptyString ]} 30
    (snd (cache_cover_url "https://www.drivethrufiction.com/images/x.jpg" EmptyString
            Demo.fresh))
  = (inr tt,
     snd (cache_cover_url "https://www.drivethrufiction.com/images/x.jpg" EmptyString
            Demo.fresh)).
Proof.
  exact (proj2 (no_identifier_no_cover (H := Demo.catalog_host)
                  {[ "drivethrufiction" := EmptyString ]} 30%Z _ eq_refl)).
Defined.

Lemma download_cover_fetches_the_cached_url_witness :
  let st := snd (cache_cover_url (Demo.product_page "7") "7" Demo.fresh) in
  download_cover (H := Demo.catalog_host) {[ "drivethrufiction" := "7" ]} 30 st
    = (inr tt,
       add_results [QCover "<cover>"]
         (add_events [curl_event st (Demo.product_page "7") 30] st)).
Proof.
  exact (download_cover_fetches_the_cached_url (H := Demo.catalog_host)
           {[ "drivethrufiction" := "7" ]} 30%Z
           (snd (cache_cover_url (Demo.product_page "7") "7" Demo.fresh))
           "7" (Demo.product_page "7")
           eq_refl ltac:(discriminate) eq_refl ltac:(discriminate)).
Defined.

Lemma identify_then_download_cover_witness :
  let st1 := snd (identify (H := Demo.catalog_host) None None
                    {[ "drivethrufiction" := "7" ]} 30 Demo.fresh) in
  trace (snd (download_cover (H := Demo.catalog_host)
                {[ "drivethrufiction" := "7" ]} 30 st1))
    = [ curl_event Demo.fresh (details_url (H := Demo.catalog_host) (JStr "7")) 30;
        curl_event Demo.fresh "https://www.drivethrufiction.com/images/8957/240640.jpg" 30 ].
Proof.
  exact (proj2 (proj2 (identify_then_download_cover (H := Demo.catalog_host)
                         None None {[ "drivethrufiction" := "7" ]} 30%Z Demo.fresh
                         "7" "<cover>" Demo.cover_envelope _ _
                         eq_refl ltac:(discriminate) eq_refl eq_refl eq_refl))).
Defined.

(** ** More on title cleaning *)

Section PlainTitles.
Import PyStr Re.

Lemma str_of_chars s : str (chars s) = s.
Proof. apply String.string_of_list_ascii_of_string. Qed.

Lemma sub_go_free_of_open n prev s :
  free_of_open s = true -> sub_go bracket_re n prev s = s.
Proof.
  revert prev s; induction n as [|n IH]; intros prev s Hs; [apply sub_go_0|].
  destruct s as [|c s]; [reflexivity|].
  unfold free_of_open in Hs. cbn [forallb] in Hs. apply andb_prop in Hs as [Hc Hs].
  apply negb_true_iff in Hc.
  rewrite sub_go_cons, match_at_bracket, Hc. f_equal. by apply IH.
Qed.

Lemma clean_plain_title s :
  free_of_v (chars s) = true -> free_of_open (chars s) = true ->
  _clean_title (Some s) = join " " (split s).
Proof.
  intros Hv Hopen. unfold _clean_title.
  destruct (is_empty s) eqn:Hs; [by destruct s|].
  unfold sub at 2. unfold sub_chars. rewrite sub_go_free_of_v, str_of_chars by done.
  unfold sub, sub_chars. by rewrite sub_go_free_of_open, str_of_chars.
Qed.

(** X14. A title with no letter v and no opening bracket is only
    normalised: cleaning splits it at whitespace and joins the words with
    single spaces, and removes nothing else. *)
Theorem plain_title_is_only_normalised s :
  free_of_v (chars s) = true -> free_of_open (chars s) = true ->
  _clean_title (Some s) = join " " (split s).
Proof. apply clean_plain_title. Qed.

(** X15. For a plain title that is already normalised cleaning changes
    nothing, so the cascade has the verbatim strategies only: neither the
    cleaned title nor its first four words are ever searched. *)
Theorem plain_normalised_title_has_no_cleaned_search s authors :
  free_of_v (chars s) = true -> free_of_open (chars s) = true ->
  normalised s = true ->
  _clean_title (Some s) = s /\
  forallb (fun k => k <=? 2)%nat (map fst (strategies (Some s) authors)) = true.
Proof.
  intros Hv Hopen Hnorm.
  assert (Hclean : _clean_title (Some s) = s).
  { rewrite clean_plain_title by done. by apply String.eqb_eq. }
  split; [exact Hclean|]. unfold strategies. rewrite Hclean.
  unfold differs. rewrite String.eqb_refl. simpl.
  by destruct (list_truthy authors && _).
Qed.

Lemma sub_go_length r n prev s : length (sub_go r n prev s) <= length s.
Proof.
  revert prev s; induction n as [|n IH]; intros prev s; [by rewrite sub_go_0|].
  destruct s as [|c s]; [reflexivity|]. rewrite sub_go_cons.
  destruct (match_at r prev (c :: s)) as [[|m]|].
  - simpl. specialize (IH (Some c) s). lia.
  - etrans; [apply IH|]. rewrite length_drop. lia.
  - simpl. specialize (IH (Some c) s). lia.
Qed.

Lemma join_split_length cur t :
  length (join_chars [" "%char] (split_go cur t)) <= length cur + length t.
Proof.
  revert cur; induction t as [|c t IH]; intros cur; simpl.
  - destruct cur as [|a cur]; simpl; [lia|]. rewrite length_app, length_rev. simpl. lia.
  - destruct (is_space c).
    + specialize (IH []). simpl in IH. destruct cur as [|a cur]; simpl; [lia|].
      destruct (split_go [] t) as [|w ws] eqn:Hws.
      * rewrite length_app, length_rev. simpl. lia.
      * rewrite !length_app, length_rev. simpl in *. lia.
    + specialize (IH (c :: cur)). simpl in IH. lia.
Qed.

(** X16. Cleaning only takes characters away: the cleaned title is never
    longer than the title. *)
Theorem cleaned_title_is_never_longer s :
  length (chars (_clean_title (Some s))) <= length (chars s).
Proof.
  destruct (is_empty s) eqn:Hs.
  - unfold _clean_title. rewrite Hs. simpl. lia.
  - rewrite chars_clean_title by done.
    etrans; [apply (join_split_length [])|]. simpl.
    unfold sub_chars. etrans; [apply sub_go_length|]. apply sub_go_length.
Qed.

End PlainTitles.

Lemma plain_title_is_only_normalised_witness :
  _clean_title (Some "  The   Castle of  Otranto ") = "The Castle of Otranto".
Proof.
  exact (plain_title_is_only_normalised "  The   Castle of  Otranto " eq_refl eq_refl).
Defined.

Lemma plain_normalised_title_has_no_cleaned_search_witness :
  _clean_title (Some "The Castle of Otranto Retold") = "The Castle of Otranto Retold" /\
  forallb (fun k => k <=? 2)%nat
    (map fst (strategies (Some "The Castle of Otranto Retold")
                (Some ["Horace Walpole"]))) = true.
Proof.
  exact (plain_normalised_title_has_no_cleaned_search
           "The Castle of Otranto Retold" (Some ["Horace Walpole"])
           eq_refl eq_refl eq_refl).
Defined.

(** ** The settings widget *)

Section Settings.
Import PyStr.

Lemma lstrip_parts s :
  exists a, forallb is_space a = true /\ s = a ++ lstrip_chars s /\
            head_fails is_space (lstrip_chars s) = true.
Proof.
  induction s as [|c s (a & Ha & Hs & Hh)]; simpl.
  - by exists [].
  - destruct (is_space c) eqn:Hc.
    + exists (c :: a). simpl. rewrite Hc, Ha. split; [done|]. split; [by f_equal | done].
    + exists []. simpl. by rewrite Hc.
Qed.

Lemma lstrip_fixed s : head_fails is_space s = true -> lstrip_chars s = s.
Proof.
  destruct s as [|c s]; [reflexivity|]. simpl. intros Hc%negb_true_iff. by rewrite Hc.
Qed.

Lemma lstrip_blank s : forallb is_space s = true -> lstrip_chars s = [].
Proof.
  induction s as [|c s IH]; [reflexivity|]. simpl.
  intros [Hc Hs]%andb_prop. rewrite Hc. by apply IH.
Qed.

Lemma head_fails_prefix cls (x y : list ascii) :
  head_fails cls (x ++ y) = true -> head_fails cls x = true.
Proof. by destruct x. Qed.

Lemma forallb_rev {A} (P : A -> bool) l :
  forallb P l = true -> forallb P (rev l) = true.
Proof.
  intros Hl. apply forallb_forall. intros x Hx%in_rev.
  by apply (proj1 (forallb_forall _ _) Hl).
Qed.

Lemma strip_parts s :
  exists a b,
    forallb is_space a = true /\ forallb is_space b = true /\
    s = a ++ strip_chars s ++ b /\ trimmed (strip_chars s) = true.
Proof.
  destruct (lstrip_parts s) as (a & Ha & Hs & Hh).
  destruct (lstrip_parts (rev (lstrip_chars s))) as (b & Hb & Hr & Hhr).
  assert (Hl : lstrip_chars s = strip_chars s ++ rev b).
  { unfold strip_chars. rewrite <- rev_app_distr, <- Hr. by rewrite rev_involutive. }
  exists a, (rev b). split; [done|]. split; [by apply forallb_rev|].
  split; [by rewrite <- Hl|].
  unfold trimmed. apply andb_true_intro. split.
  - apply (head_fails_prefix _ _ (rev b)). by rewrite <- Hl.
  - unfold strip_chars. by rewrite rev_involutive.
Qed.

Lemma strip_fixed s : trimmed s = true -> strip_chars s = s.
Proof.
  unfold trimmed. intros [Hh Hr]%andb_prop. unfold strip_chars.
  rewrite (lstrip_fixed s Hh), (lstrip_fixed (rev s) Hr). apply rev_involutive.
Qed.

Lemma strip_blank s : forallb is_space s = true -> strip_chars s = [].
Proof. intros Hs. unfold strip_chars. by rewrite (lstrip_blank s Hs). Qed.

(** X17. [save_settings] stores the text of the line edit without the
    whitespace at its ends, and nothing but that whitespace is lost; the
    cache, the trace and the queue stay as they are. *)
Theorem save_settings_stores_the_stripped_text w st :
  exists cookie a b,
    snd (save_settings w st) =
      {| cf_cookie_dtf := Some cookie; _cached_cover := _cached_cover st;
         trace := trace st; result_queue := result_queue st |} /\
    chars (cookie_input w) = a ++ chars cookie ++ b /\
    forallb is_space a = true /\ forallb is_space b = true /\
    trimmed (chars cookie) = true.
Proof.
  destruct (strip_parts (chars (cookie_input w))) as (a & b & Ha & Hb & Hs & Ht).
  exists (strip (cookie_input w)), a, b. unfold strip. rewrite chars_str.
  by repeat split.
Qed.

(** X18. After [save_settings] both transports send the stored cookie
    when the text was not blank, and what they send with a blank text is
    what they send with no cookie at all. *)
Theorem saved_cookie_is_sent_unless_blank w st url timeout :
  let st' := snd (save_settings w st) in
  let cookie := strip (cookie_input w) in
  (forallb is_space (chars (cookie_input w)) = true -> cookie = EmptyString) /\
  if is_empty cookie then
    browser_headers (cf_cookie_dtf st') = browser_headers None /\
    curl_cmd (cf_cookie_dtf st') url timeout = curl_cmd None url timeout
  else
    In ("Cookie", "cf_clearance=" +:+ cookie) (browser_headers (cf_cookie_dtf st')) /\
    In ("Cookie: cf_clearance=" +:+ cookie) (curl_cmd (cf_cookie_dtf st') url timeout).
Proof.
  intros st' cookie. split.
  - intros Hblank. unfold cookie, strip. by rewrite (strip_blank _ Hblank).
  - unfold st', cookie, save_settings. cbn [snd cf_cookie_dtf].
    destruct (strip (cookie_input w)) as [|c rest]; [by split|].
    cbn [is_empty].
    destruct (transports_carry_the_same_request (String c rest) url timeout)
      as (Hb & Hc & _); [discriminate|]. by split.
Qed.

(** X19. Opening the settings and saving them unchanged is a round trip:
    once a cookie has been saved, [config_widget] followed by
    [save_settings] leaves the state as it is. *)
Theorem reopening_and_saving_changes_nothing w st :
  let st' := snd (save_settings w st) in
  save_settings (config_widget st') st' = (inr tt, st').
Proof.
  intros st'. unfold st', save_settings, config_widget.
  cbn [snd cf_cookie_dtf cookie_input from_option _cached_cover trace result_queue].
  do 3 f_equal. unfold strip. rewrite chars_str. f_equal.
  destruct (strip_parts (chars (cookie_input w))) as (a & b & _ & _ & _ & Ht).
  by apply strip_fixed.
Qed.

End Settings.

Lemma saved_cookie_is_sent_unless_blank_witness :
  curl_cmd (cf_cookie_dtf (snd (save_settings {| cookie_input := "  " |} Demo.fresh)))
    (Demo.product_page "7") 30
  = curl_cmd None (Demo.product_page "7") 30.
Proof.
  exact (proj2 (proj2 (saved_cookie_is_sent_unless_blank
                         {| cookie_input := "  " |} Demo.fresh
                         (Demo.product_page "7") 30%Z))).
Defined.
